(** * Face-Authentication-Attendance-System: a shallow embedding of the
    liveness detector ([src/spoof/liveness.py]), the face matcher
    ([src/face/matcher.py]), the face registry and the attendance ledger
    ([src/attendance/storage.py]) with the registration branch of
    [src/app.py]. *)

From Stdlib Require Import Strings.String List QArith Lia Bool Reals Lra.
From Stdlib Require Lqa Znat.
Import ListNotations.

(* ================================================================= *)
(** ** Liveness detector ([src/spoof/liveness.py]) *)

Module Liveness.

Open Scope Q_scope.

(** The attributes of a [LivenessDetector] object.  Times are the
    values of [time.time()] in seconds, modelled as rationals. *)
Record Detector := mkDetector {
  blink_threshold : Q;
  consecutive_frames : nat;
  required_blinks : nat;
  blink_count : nat;
  closed_frames : nat;
  check_start_time : option Q;
  max_check_duration : Q
}.

(** [reset]: clears the per-attempt state; the thresholds are kept. *)
Definition reset (d : Detector) : Detector :=
  {| blink_threshold := blink_threshold d;
     consecutive_frames := consecutive_frames d;
     required_blinks := required_blinks d;
     blink_count := 0%nat;
     closed_frames := 0%nat;
     check_start_time := None;
     max_check_duration := 1 |}.

(** [__init__]: the blink parameters, then [self.reset()]. *)
Definition init : Detector :=
  reset {| blink_threshold := 1 # 4;
           consecutive_frames := 2%nat;
           required_blinks := 0%nat;
           blink_count := 0%nat;
           closed_frames := 0%nat;
           check_start_time := None;
           max_check_duration := 1 |}.

(** [calculate_ear] on an eye region of [eye_region.shape[:2] = (h, w)]. *)
Definition calculate_ear (h w : nat) : Q :=
  if Nat.eqb w 0 then 0 else inject_Z (Z.of_nat h) / inject_Z (Z.of_nat w).

(** One camera frame, as far as the detector sees it: the eye-aspect
    ratios [calculate_ear] returns for the eyes the Haar cascade found
    in the face region (the empty list when no eye is detected). *)
Definition Frame := list Q.

Definition sumQ (l : list Q) : Q := fold_right Qplus 0 l.

(** Python's [a < b] on numbers. *)
Definition Qltb (a b : Q) : bool := negb (Qle_bool b a).

(** The dict returned by [check_blink]. *)
Record BlinkResult := mkBlinkResult {
  eyes_detected : bool;
  blink_detected : bool;
  ear_values : list Q
}.

(** [check_blink]: updates [closed_frames] and [blink_count]. *)
Definition check_blink (d : Detector) (eyes : Frame) : BlinkResult * Detector :=
  match eyes with
  | [] => (mkBlinkResult false false [], d)
  | _ :: _ =>
      let avg_ear := sumQ eyes / inject_Z (Z.of_nat (length eyes)) in
      let eyes_closed := Qltb avg_ear (blink_threshold d) in
      if eyes_closed then
        (mkBlinkResult true false eyes,
         {| blink_threshold := blink_threshold d;
            consecutive_frames := consecutive_frames d;
            required_blinks := required_blinks d;
            blink_count := blink_count d;
            closed_frames := S (closed_frames d);
            check_start_time := check_start_time d;
            max_check_duration := max_check_duration d |})
      else
        let blink := Nat.leb (consecutive_frames d) (closed_frames d) in
        (mkBlinkResult true blink eyes,
         {| blink_threshold := blink_threshold d;
            consecutive_frames := consecutive_frames d;
            required_blinks := required_blinks d;
            blink_count := if blink then S (blink_count d) else blink_count d;
            closed_frames := 0%nat;
            check_start_time := check_start_time d;
            max_check_duration := max_check_duration d |})
  end.

(** The dict returned by [verify_liveness]; [is_live] is [None] while
    the check is still running.  The message string is left out. *)
Record VerifyResult := mkVerifyResult {
  is_live : option bool;
  res_blink_count : nat;
  time_elapsed : Q
}.

(** [verify_liveness] called at time [now] on a frame. *)
Definition verify_liveness (d : Detector) (now : Q) (eyes : Frame)
  : VerifyResult * Detector :=
  let start := match check_start_time d with Some t => t | None => now end in
  let d := {| blink_threshold := blink_threshold d;
              consecutive_frames := consecutive_frames d;
              required_blinks := required_blinks d;
              blink_count := blink_count d;
              closed_frames := closed_frames d;
              check_start_time := Some start;
              max_check_duration := max_check_duration d |} in
  let elapsed := now - start in
  if Qltb (max_check_duration d) elapsed then
    (mkVerifyResult (Some false) (blink_count d) elapsed, d)
  else
    let '(br, d) := check_blink d eyes in
    if negb (eyes_detected br) then
      (mkVerifyResult None (blink_count d) elapsed, d)
    else if Nat.leb (required_blinks d) (blink_count d) then
      (mkVerifyResult (Some true) (blink_count d) elapsed, d)
    else
      (mkVerifyResult None (blink_count d) elapsed, d).

(** A sequence of calls: each frame is the call time and the frame. *)
Fixpoint run (d : Detector) (frames : list (Q * Frame)) : list VerifyResult :=
  match frames with
  | [] => []
  | (now, eyes) :: rest =>
      let '(r, d') := verify_liveness d now eyes in r :: run d' rest
  end.

(** The outcome the code gives a call at time [now] on a frame, in an
    attempt whose first call was at time [t0], under the configured
    [required_blinks = 0] and [max_check_duration = 1]. *)
Definition live_outcome (t0 now : Q) (eyes : Frame) : option bool :=
  if Qltb 1 (now - t0) then Some false
  else match eyes with [] => None | _ :: _ => Some true end.

(** What every state of an attempt started at [t0] satisfies. *)
Definition Started (t0 : Q) (d : Detector) : Prop :=
  required_blinks d = 0%nat /\ max_check_duration d = 1 /\
  check_start_time d = Some t0.

(** A frame [check_blink] counts as closed eyes: eyes detected and
    their average EAR below [blink_threshold]. *)
Definition frame_closed (thr : Q) (eyes : Frame) : bool :=
  match eyes with
  | [] => false
  | _ :: _ => Qltb (sumQ eyes / inject_Z (Z.of_nat (length eyes))) thr
  end.

(** A frame [check_blink] counts as open eyes. *)
Definition frame_open (thr : Q) (eyes : Frame) : bool :=
  match eyes with
  | [] => false
  | _ :: _ => negb (Qltb (sumQ eyes / inject_Z (Z.of_nat (length eyes))) thr)
  end.

(** The detector after a sequence of [verify_liveness] calls. *)
Fixpoint run_state (d : Detector) (frames : list (Q * Frame)) : Detector :=
  match frames with
  | [] => d
  | (now, eyes) :: rest => run_state (snd (verify_liveness d now eyes)) rest
  end.

(** Successive [check_blink] calls on a list of frames. *)
Definition blink_run (d : Detector) (frames : list Frame) : Detector :=
  fold_left (fun d eyes => snd (check_blink d eyes)) frames d.

End Liveness.

(* ================================================================= *)
(** ** Face matcher ([src/face/matcher.py]) *)

Module Matcher.

Open Scope R_scope.

(** A face encoding is a numpy vector of floats, modelled as a list of
    reals; numpy raises when two vectors of different sizes are
    subtracted, so encodings compared by the matcher have one size. *)
Definition Encoding := list R.

(** A distance is a float that may be [float('inf')]. *)
Inductive Dist := Fin (r : R) | Inf.

(** [calculate_distance]: [np.linalg.norm(encoding1 - encoding2)]. *)
Definition calculate_distance (e1 e2 : Encoding) : R :=
  sqrt (fold_right Rplus 0 (map (fun '(a, b) => (a - b) * (a - b)) (combine e1 e2))).

(** [np.argmin]: the first index of a minimum, with the minimum. *)
Fixpoint argmin_aux (l : list R) (i bi : nat) (bd : R) : nat * R :=
  match l with
  | [] => (bi, bd)
  | x :: t =>
      if Rlt_dec x bd then argmin_aux t (S i) i x else argmin_aux t (S i) bi bd
  end.

Definition argmin (l : list R) : nat * R :=
  match l with
  | [] => (0%nat, 0)
  | x :: t => argmin_aux t 1 0 x
  end.

(** The dict returned by [match_face]. *)
Record MatchResult := mkMatchResult {
  matched : bool;
  name : option String.string;
  confidence : R;
  distance : Dist;
  index : option nat
}.

Definition non_match : MatchResult := mkMatchResult false None 0 Inf None.

(** [match_face] with [self.threshold = threshold]; [None] is a query
    encoding of [None].  The registry's encodings are the rows of the
    2-D array [known_encodings]. *)
Definition match_face (threshold : R) (query_encoding : option Encoding)
    (known_encodings : list Encoding) (known_names : list String.string)
  : MatchResult :=
  match query_encoding with
  | None => non_match
  | Some q =>
      match known_encodings with
      | [] => non_match
      | _ :: _ =>
          if negb (Nat.eqb (length known_names) (length known_encodings))
          then non_match
          else
            let distances := map (calculate_distance q) known_encodings in
            let '(best_match_idx, best_distance) := argmin distances in
            if Rle_dec best_distance threshold then
              mkMatchResult true (nth_error known_names best_match_idx)
                (Rmax 0 (1 - best_distance / threshold))
                (Fin best_distance) (Some best_match_idx)
            else mkMatchResult false None 0 (Fin best_distance) None
      end
  end.





End Matcher.

(* ================================================================= *)
(** ** Attendance ledger ([AttendanceLogger], [src/attendance/storage.py]) *)

Module Ledger.

Open Scope Q_scope.

Inductive Kind := punch_in_kind | punch_out_kind.

Definition kind_eqb (a b : Kind) : bool :=
  match a, b with
  | punch_in_kind, punch_in_kind | punch_out_kind, punch_out_kind => true
  | _, _ => false
  end.

(** One entry of [self.logs].  [timestamp] is the ISO timestamp, as
    seconds; [date] the [%Y-%m-%d] day, as a day number; [time] the
    [%H:%M:%S] string.  [duration] stands for the pair of keys
    [duration_hours] and [duration_str] that [punch_out] writes together:
    both are renderings of the [timedelta] [out_time - in_time], kept
    here as its length in seconds. *)
Record Entry := mkEntry {
  name : string;
  face_id : Z;
  type : Kind;
  timestamp : Q;
  date : Z;
  time : string;
  duration : option Q
}.

Definition Logs := list Entry.

(** The [type] key of a failed punch result. *)
Inductive Reason := duplicate | already_completed | not_punched_in.

(** A punch result: [success = True] with its [entry], or [success =
    False] with its [type].  Messages are left out. *)
Inductive Outcome := Accepted (e : Entry) | Rejected (r : Reason).

(** [get_status_recent name] at time [now]: the last entry of [name]
    (scanning [reversed(self.logs)]) at most 10 s old. *)
Definition get_status_recent (now : Q) (n : string) (logs : Logs) : option Kind :=
  match find (fun e => String.eqb (name e) n && Qle_bool (now - timestamp e) 10)
             (rev logs) with
  | Some e => Some (type e)
  | None => None
  end.

(** [get_status_today name] on day [today]. *)
Definition get_status_today (today : Z) (n : string) (logs : Logs) : option Kind :=
  match find (fun e => String.eqb (name e) n && Z.eqb (date e) today) (rev logs) with
  | Some e => Some (type e)
  | None => None
  end.

(** [_get_last_punch_in_today name] on day [today]. *)
Definition get_last_punch_in_today (today : Z) (n : string) (logs : Logs)
  : option Entry :=
  find (fun e => String.eqb (name e) n && Z.eqb (date e) today &&
                 kind_eqb (type e) punch_in_kind) (rev logs).

(** [punch_in(name, face_id)] called at time [now] on day [today], the
    clock reading [clock]; returns the result and the new [self.logs]. *)
Definition punch_in (n : string) (fid : Z) (now : Q) (today : Z) (clock : string)
    (logs : Logs) : Outcome * Logs :=
  match get_status_recent now n logs with
  | Some punch_in_kind => (Rejected duplicate, logs)
  | Some punch_out_kind => (Rejected already_completed, logs)
  | None =>
      let entry := mkEntry n fid punch_in_kind now today clock None in
      (Accepted entry, logs ++ [entry])
  end.

(** [punch_out(name, face_id)], likewise. *)
Definition punch_out (n : string) (fid : Z) (now : Q) (today : Z) (clock : string)
    (logs : Logs) : Outcome * Logs :=
  match get_status_today today n logs with
  | None => (Rejected not_punched_in, logs)
  | Some status =>
      let recent_dup :=
        match status, get_status_recent now n logs with
        | punch_out_kind, Some punch_out_kind => true
        | _, _ => false
        end in
      if recent_dup then (Rejected duplicate, logs)
      else
        let punch_in_entry := get_last_punch_in_today today n logs in
        let d := match punch_in_entry with
                 | Some p => Some (now - timestamp p)
                 | None => None
                 end in
        let entry := mkEntry n fid punch_out_kind now today clock d in
        (Accepted entry, logs ++ [entry])
  end.

(** Ledgers produced by [punch_in] and [punch_out] calls from an empty
    log. *)
Inductive reachable : Logs -> Prop :=
  | reachable_nil : reachable []
  | reachable_in logs n fid now today clock :
      reachable logs -> reachable (snd (punch_in n fid now today clock logs))
  | reachable_out logs n fid now today clock :
      reachable logs -> reachable (snd (punch_out n fid now today clock logs)).

(** The value [status] takes in [get_today_summary]. *)
Inductive Status := Completed | Checked_In | Unknown.

(** One value of the [people] dict of [get_today_summary]. *)
Record Row := mkRow {
  row_name : string;
  row_punch_in : option string;
  row_punch_out : option string;
  row_duration : option Q;
  row_status : option Status
}.

Definition new_row (n : string) : Row := mkRow n None None None None.

(** The update a log applies to its person's row. *)
Definition apply_log (log : Entry) (r : Row) : Row :=
  match type log with
  | punch_in_kind =>
      mkRow (row_name r) (Some (time log)) (row_punch_out r) (row_duration r) (row_status r)
  | punch_out_kind =>
      mkRow (row_name r) (row_punch_in r) (Some (time log))
        (match duration log with Some d => Some d | None => row_duration r end)
        (row_status r)
  end.

(** [people[name] = f(people[name])] on the dict as an insertion-ordered
    list of rows. *)
Fixpoint update_row (n : string) (f : Row -> Row) (people : list Row) : list Row :=
  match people with
  | [] => []
  | r :: rest =>
      if String.eqb (row_name r) n then f r :: rest else r :: update_row n f rest
  end.

(** One iteration of the grouping loop. *)
Definition group_step (people : list Row) (log : Entry) : list Row :=
  let people :=
    if existsb (fun r => String.eqb (row_name r) (name log)) people then people
    else people ++ [new_row (name log)] in
  update_row (name log) (apply_log log) people.

(** Python truthiness of an optional string. *)
Definition truthy (o : option string) : bool :=
  match o with Some s => negb (String.eqb s "") | None => false end.

Definition set_status (r : Row) : Row :=
  mkRow (row_name r) (row_punch_in r) (row_punch_out r) (row_duration r)
    (Some (if truthy (row_punch_in r) && truthy (row_punch_out r) then Completed
           else if truthy (row_punch_in r) then Checked_In
           else Unknown)).

(** [get_today_logs] on day [today]. *)
Definition get_today_logs (today : Z) (logs : Logs) : Logs :=
  filter (fun log => Z.eqb (date log) today) logs.

(** [get_today_summary] on day [today]. *)
Definition get_today_summary (today : Z) (logs : Logs) : list Row :=
  map set_status (fold_left group_step (get_today_logs today logs) []).

(** The latest entry of kind [k] for [n] on day [today], and the latest
    such EXIT entry that carries a duration. *)
Definition latest (today : Z) (n : string) (k : Kind) (logs : Logs) : option Entry :=
  find (fun e => String.eqb (name e) n && Z.eqb (date e) today && kind_eqb (type e) k)
       (rev logs).

Definition latest_duration (today : Z) (n : string) (logs : Logs) : option Q :=
  match find (fun e => String.eqb (name e) n && Z.eqb (date e) today &&
                       kind_eqb (type e) punch_out_kind &&
                       match duration e with Some _ => true | None => false end)
             (rev logs) with
  | Some e => duration e
  | None => None
  end.

End Ledger.

(* ================================================================= *)
(** ** Face registry ([FaceStorage], [src/attendance/storage.py]) and
       the registration branch of [main] ([src/app.py]) *)

Module Registry.

Open Scope R_scope.

(** One entry of [self.faces]. *)
Record FaceMeta := mkFaceMeta {
  id : nat;
  face_name : string;
  registered_at : string
}.

(** [self.faces] and the rows of the 2-D array [self.encodings] (the
    empty array [np.array([])] is the empty list). *)
Record FaceStorage := mkFaceStorage {
  faces : list FaceMeta;
  encodings : list (list R)
}.

(** [register_face(name, encoding)], [now] being the ISO timestamp;
    returns the id and the new storage. *)
Definition register_face (name : string) (encoding : list R) (now : string)
    (st : FaceStorage) : nat * FaceStorage :=
  let face_id := length (faces st) in
  let face_data := mkFaceMeta face_id name now in
  let encs := match encodings st with
              | [] => [encoding]
              | _ :: _ => encodings st ++ [encoding]
              end in
  (face_id, mkFaceStorage (faces st ++ [face_data]) encs).

Definition get_all_names (st : FaceStorage) : list string :=
  map face_name (faces st).

(** Element-wise sum of two vectors of one size. *)
Definition vadd (a b : list R) : list R :=
  map (fun '(x, y) => x + y) (combine a b).

(** [np.mean(samples, axis=0)]. *)
Definition mean (samples : list (list R)) : list R :=
  let total := match samples with
               | [] => []
               | s :: rest => fold_left vadd rest s
               end in
  map (fun x => x / INR (length samples)) total.

Definition num_samples : nat := 7.

(** The end of the registration branch of [main]: once the capture loop
    has collected [samples], register their average under [name] if
    there are at least [num_samples] of them. *)
Definition register_samples (name : string) (samples : list (list R))
    (now : string) (st : FaceStorage) : option (nat * FaceStorage) :=
  if Nat.leb num_samples (length samples)
  then Some (register_face name (mean samples) now st)
  else None.

(** [get_face_by_index(index)] for a Python [int] index. *)
Definition get_face_by_index (st : FaceStorage) (index : Z) : option FaceMeta :=
  if (0 <=? index)%Z && (index <? Z.of_nat (length (faces st)))%Z
  then nth_error (faces st) (Z.to_nat index)
  else None.

(** Registries built by [register_face] calls from the empty one. *)
Inductive registered : FaceStorage -> Prop :=
  | registered_empty : registered (mkFaceStorage [] [])
  | registered_add st name enc now :
      registered st -> registered (snd (register_face name enc now st)).

End Registry.

(* ================================================================= *)
(** * Properties *)

Module LivenessFacts.
Import Liveness.
Open Scope Q_scope.

Example run_ex1 :
  map is_live (run init [(0, [1#2; 1#2]); (2, [1#2])]) = [Some true; Some false].
Proof. reflexivity. Qed.

Example run_ex2 :
  map is_live (run init [(0, []); (1#2, []); (3#2, [])]) = [None; None; Some false].
Proof. reflexivity. Qed.

Lemma verify_liveness_started t0 d now eyes :
  Started t0 d ->
  is_live (fst (verify_liveness d now eyes)) = live_outcome t0 now eyes /\
  Started t0 (snd (verify_liveness d now eyes)).
Proof.
  destruct d as [bt cf rb bc clf cst mcd]; intros (Hrb & Hm & Hs); simpl in *; subst.
  unfold verify_liveness, live_outcome; simpl.
  destruct (Qltb 1 (now - t0)); [split; [reflexivity | repeat split] |].
  destruct eyes as [|e es]; [split; [reflexivity | repeat split] |].
  unfold check_blink; cbn -[Qltb sumQ].
  destruct (Qltb _ bt); simpl; (split; [reflexivity | repeat split]).
Qed.

Lemma run_started t0 d frames :
  Started t0 d ->
  forall k now eyes r,
  nth_error frames k = Some (now, eyes) ->
  nth_error (run d frames) k = Some r ->
  is_live r = live_outcome t0 now eyes.
Proof.
  revert d; induction frames as [|[n e] rest IH]; intros d Hd k now eyes r Hf Hr.
  - destruct k; discriminate.
  - simpl in Hr.
    destruct (verify_liveness_started t0 d n e Hd) as [Hl Hd'].
    destruct (verify_liveness d n e) as [r0 d'] eqn:Ev; simpl in *.
    destruct k as [|k]; simpl in *.
    + injection Hf as <- <-; injection Hr as <-; exact Hl.
    + exact (IH d' Hd' k now eyes r Hf Hr).
Qed.

(** The first call of an attempt starts its timer. *)
Lemma run_init t0 e0 rest :
  run init ((t0, e0) :: rest) =
  run {| blink_threshold := 1 # 4; consecutive_frames := 2;
         required_blinks := 0; blink_count := 0; closed_frames := 0;
         check_start_time := Some t0; max_check_duration := 1 |}
      ((t0, e0) :: rest).
Proof. reflexivity. Qed.

Lemma run_init_outcome t0 e0 rest k now eyes r :
  nth_error ((t0, e0) :: rest) k = Some (now, eyes) ->
  nth_error (run init ((t0, e0) :: rest)) k = Some r ->
  is_live r = live_outcome t0 now eyes.
Proof.
  rewrite run_init; apply run_started; repeat split.
Qed.


Lemma live_outcome_live t0 now eyes :
  live_outcome t0 now eyes = Some true <-> eyes <> [] /\ now - t0 <= 1.
Proof.
  unfold live_outcome, Qltb.
  destruct (Qle_bool (now - t0) 1) eqn:E; simpl.
  - apply Qle_bool_iff in E; destruct eyes as [|x xs].
    + split; [discriminate | intros [H _]; contradiction H; reflexivity].
    + split; [intros _; split; [discriminate | exact E] | reflexivity].
  - split; [discriminate | intros [_ H]; apply Qle_bool_iff in H; congruence].
Qed.

(** ** C1 *)

(** C1 (counterexample): with the configured [required_blinks = 0], an
    attempt in which the eyes are visible on every frame returns LIVE on
    its very first call, with no blink counted. *)
Lemma C1_live_without_blink :
  Forall (fun f : Q * Frame => snd f <> []) [(0, [1#2; 1#2]); (1#2, [1#2; 1#2])] /\
  map is_live (run init [(0, [1#2; 1#2]); (1#2, [1#2; 1#2])]) = [Some true; Some true] /\
  map res_blink_count (run init [(0, [1#2; 1#2]); (1#2, [1#2; 1#2])]) = [0%nat; 0%nat].
Proof.
  split; [repeat constructor; simpl; discriminate | split; reflexivity].
Qed.

(** C1 (amended): within an attempt after reset, whose first call is at
    [t0], a call at time [now] returns LIVE exactly when eyes are
    detected on its frame and [now - t0] does not exceed the 1 s timeout;
    no blink is needed, and a call without detected eyes never returns
    LIVE. *)
Theorem C1_live_iff_eyes_within_timeout t0 e0 rest k now eyes r :
  nth_error ((t0, e0) :: rest) k = Some (now, eyes) ->
  nth_error (run init ((t0, e0) :: rest)) k = Some r ->
  (is_live r = Some true <-> eyes <> [] /\ now - t0 <= 1).
Proof.
  intros Hf Hr; rewrite (run_init_outcome t0 e0 rest k now eyes r Hf Hr).
  apply live_outcome_live.
Qed.

Lemma C1_live_iff_eyes_within_timeout_witness :
  nth_error [(0, [1#2])] 0 = Some (0, [1#2]) /\
  nth_error (run init [(0, [1#2])]) 0 = Some (mkVerifyResult (Some true) 0 (0 - 0)) /\
  (is_live (mkVerifyResult (Some true) 0 (0 - 0)) = Some true <->
   [1#2] <> [] /\ 0 - 0 <= 1).
Proof.
  split; [reflexivity | split; [reflexivity |]].
  apply (C1_live_iff_eyes_within_timeout 0 [1#2] [] 0 0 [1#2]); reflexivity.
Defined.

(** ** C2 *)

(** C2 (counterexample): eyes detected on every call, a call after the
    timeout returns NOT_LIVE, but the first call already returned LIVE. *)
Lemma C2_live_before_timeout :
  Forall (fun f : Q * Frame => snd f <> []) [(0, [1#2]); (2, [1#2])] /\
  map is_live (run init [(0, [1#2]); (2, [1#2])]) = [Some true; Some false].
Proof.
  split; [repeat constructor; simpl; discriminate | reflexivity].
Qed.

(** C2 (amended): after reset, a call more than 1 s after the first call
    returns NOT_LIVE; when eyes are detected on no call, no call returns
    LIVE; when eyes are detected on every call, every call within the
    timeout (the first one included) returns LIVE. *)
Theorem C2_timeout_not_live t0 e0 rest k now eyes r :
  nth_error ((t0, e0) :: rest) k = Some (now, eyes) ->
  nth_error (run init ((t0, e0) :: rest)) k = Some r ->
  (1 < now - t0 -> is_live r = Some false) /\
  (Forall (fun f : Q * Frame => snd f = []) ((t0, e0) :: rest) ->
   is_live r <> Some true) /\
  (Forall (fun f : Q * Frame => snd f <> []) ((t0, e0) :: rest) ->
   now - t0 <= 1 -> is_live r = Some true).
Proof.
  intros Hf Hr.
  pose proof (run_init_outcome t0 e0 rest k now eyes r Hf Hr) as Ho.
  pose proof (nth_error_In _ _ Hf) as Hin.
  split; [| split].
  - intros Hlt; rewrite Ho; unfold live_outcome, Qltb.
    destruct (Qle_bool (now - t0) 1) eqn:E; [| reflexivity].
    apply Qle_bool_iff in E; exfalso; apply (Qlt_not_le _ _ Hlt E).
  - intros Hall Hl; rewrite Forall_forall in Hall.
    rewrite Ho in Hl; apply live_outcome_live in Hl; destruct Hl as [Hne _].
    exact (Hne (Hall _ Hin)).
  - intros Hall Hle; rewrite Forall_forall in Hall.
    rewrite Ho; apply live_outcome_live; split; [exact (Hall _ Hin) | exact Hle].
Qed.

Lemma C2_timeout_not_live_witness :
  nth_error [(0, @nil Q); (2, @nil Q)] 1 = Some (2, @nil Q) /\
  nth_error (run init [(0, @nil Q); (2, @nil Q)]) 1 = Some (mkVerifyResult (Some false) 0 (2 - 0)) /\
  1 < 2 - 0 /\
  is_live (mkVerifyResult (Some false) 0 (2 - 0)) = Some false.
Proof.
  split; [reflexivity | split; [reflexivity | split; [reflexivity |]]].
  apply (C2_timeout_not_live 0 [] [(2, @nil Q)] 1 2 (@nil Q)); reflexivity.
Defined.

End LivenessFacts.

Module MatcherFacts.
Import Matcher.
Open Scope R_scope.

Lemma argmin_aux_spec l i bi bd :
  let '(j, m) := argmin_aux l i bi bd in
  (j = bi /\ m = bd \/ (i <= j)%nat /\ nth_error l (j - i) = Some m) /\
  m <= bd /\ (forall x, In x l -> m <= x).
Proof.
  revert i bi bd; induction l as [|x t IH]; intros i bi bd; simpl.
  - split; [left; auto | split; [lra | tauto]].
  - destruct (Rlt_dec x bd) as [Hlt|Hge].
    + specialize (IH (S i) i x); destruct (argmin_aux t (S i) i x) as [j m].
      destruct IH as [[[-> ->]|[Hij Hn]] [Hm Hall]].
      * split; [right; split; [lia | rewrite Nat.sub_diag; reflexivity] |].
        split; [lra | intros y [<-|Hy]; [lra | auto]].
      * split; [right; split; [lia |] | split; [lra |]].
        -- replace (j - i)%nat with (S (j - S i)) by lia; exact Hn.
        -- intros y [<-|Hy]; [lra | auto].
    + specialize (IH (S i) bi bd); destruct (argmin_aux t (S i) bi bd) as [j m].
      destruct IH as [[[-> ->]|[Hij Hn]] [Hm Hall]].
      * split; [left; auto | split; [lra | intros y [<-|Hy]; [lra | auto]]].
      * split; [right; split; [lia |] | split; [lra |]].
        -- replace (j - i)%nat with (S (j - S i)) by lia; exact Hn.
        -- intros y [<-|Hy]; [lra | auto].
Qed.

(** [argmin] of a non-empty list picks an element below all others. *)
Lemma argmin_spec x t :
  let '(j, m) := argmin (x :: t) in
  nth_error (x :: t) j = Some m /\ (forall y, In y (x :: t) -> m <= y).
Proof.
  simpl; pose proof (argmin_aux_spec t 1 0 x) as H.
  destruct (argmin_aux t 1 0 x) as [j m].
  destruct H as [[[-> ->]|[Hij Hn]] [Hm Hall]].
  - split; [reflexivity | intros y [<-|Hy]; [lra | auto]].
  - split; [destruct j; [lia | simpl in Hn |- *; rewrite Nat.sub_0_r in Hn; exact Hn] |].
    intros y [<-|Hy]; [lra | auto].
Qed.


Lemma calculate_distance_nonneg q e : 0 <= calculate_distance q e.
Proof. apply sqrt_pos. Qed.

(** ** C5 *)

(** C5: for a non-empty registry whose name list has the registry's
    length, a present query and a positive threshold, the candidate at
    minimum distance is accepted exactly when its distance is at most the
    threshold, with confidence [max(0, 1 - distance/threshold)] (0 when
    rejected); the confidence lies in [0,1], is 0 at distance = threshold
    and 1 at distance 0. *)
Theorem C5_min_distance_threshold_confidence threshold q e es names :
  0 < threshold -> length names = length (e :: es) ->
  exists i d,
    nth_error (map (calculate_distance q) (e :: es)) i = Some d /\
    (forall d', In d' (map (calculate_distance q) (e :: es)) -> d <= d') /\
    distance (match_face threshold (Some q) (e :: es) names) = Fin d /\
    (matched (match_face threshold (Some q) (e :: es) names) = true <-> d <= threshold) /\
    (matched (match_face threshold (Some q) (e :: es) names) = true ->
     name (match_face threshold (Some q) (e :: es) names) = nth_error names i /\
     confidence (match_face threshold (Some q) (e :: es) names) = Rmax 0 (1 - d / threshold)) /\
    (matched (match_face threshold (Some q) (e :: es) names) = false ->
     confidence (match_face threshold (Some q) (e :: es) names) = 0) /\
    0 <= confidence (match_face threshold (Some q) (e :: es) names) <= 1 /\
    (d = threshold ->
     matched (match_face threshold (Some q) (e :: es) names) = true /\
     confidence (match_face threshold (Some q) (e :: es) names) = 0) /\
    (d = 0 ->
     matched (match_face threshold (Some q) (e :: es) names) = true /\
     confidence (match_face threshold (Some q) (e :: es) names) = 1).
Proof.
  intros Ht Hlen.
  pose proof (argmin_spec (calculate_distance q e) (map (calculate_distance q) es)) as Ha.
  change (calculate_distance q e :: map (calculate_distance q) es)
    with (map (calculate_distance q) (e :: es)) in Ha.
  unfold match_face; cbv beta iota.
  rewrite Hlen, Nat.eqb_refl; cbv beta iota.
  destruct (argmin (map (calculate_distance q) (e :: es))) as [j m].
  destruct Ha as [Hn Hmin].
  assert (Hm0 : 0 <= m).
  { apply nth_error_In, in_map_iff in Hn; destruct Hn as [x [<- _]].
    apply calculate_distance_nonneg. }
  assert (Hdiv : 0 <= m / threshold).
  { unfold Rdiv; apply Rmult_le_pos; [lra | left; apply Rinv_0_lt_compat; lra]. }
  exists j, m.
  destruct (Rle_dec m threshold) as [Hle|Hgt]; simpl.
  - split; [exact Hn | split; [exact Hmin | split; [reflexivity |]]].
    split; [split; [intros _; exact Hle | reflexivity] |].
    split; [intros _; split; reflexivity |].
    split; [discriminate |].
    split; [split; [apply Rmax_l | apply Rmax_lub; lra] |].
    split.
    + intros ->; split; [reflexivity |].
      rewrite Rdiv_diag by lra; replace (1 - 1) with 0 by ring.
      apply Rmax_left; lra.
    + intros ->; split; [reflexivity |].
      rewrite Rdiv_0_l; replace (1 - 0) with 1 by ring.
      apply Rmax_right; lra.
  - split; [exact Hn | split; [exact Hmin | split; [reflexivity |]]].
    split; [split; [discriminate | intros H; contradiction] |].
    split; [discriminate |].
    split; [reflexivity |].
    split; [lra |].
    split; intros ->; exfalso; lra.
Qed.

Lemma C5_min_distance_threshold_confidence_witness :
  0 < 2 /\ length ["Alice"%string; "Bob"%string] = length [[0; 0]; [3; 4]] /\
  exists i d,
    nth_error (map (calculate_distance [0; 0]) [[0; 0]; [3; 4]]) i = Some d /\
    (forall d', In d' (map (calculate_distance [0; 0]) [[0; 0]; [3; 4]]) -> d <= d') /\
    distance (match_face 2 (Some [0; 0]) [[0; 0]; [3; 4]] ["Alice"%string; "Bob"%string]) = Fin d /\
    (matched (match_face 2 (Some [0; 0]) [[0; 0]; [3; 4]] ["Alice"%string; "Bob"%string]) = true <-> d <= 2) /\
    (matched (match_face 2 (Some [0; 0]) [[0; 0]; [3; 4]] ["Alice"%string; "Bob"%string]) = true ->
     name (match_face 2 (Some [0; 0]) [[0; 0]; [3; 4]] ["Alice"%string; "Bob"%string]) =
       nth_error ["Alice"%string; "Bob"%string] i /\
     confidence (match_face 2 (Some [0; 0]) [[0; 0]; [3; 4]] ["Alice"%string; "Bob"%string]) = Rmax 0 (1 - d / 2)) /\
    (matched (match_face 2 (Some [0; 0]) [[0; 0]; [3; 4]] ["Alice"%string; "Bob"%string]) = false ->
     confidence (match_face 2 (Some [0; 0]) [[0; 0]; [3; 4]] ["Alice"%string; "Bob"%string]) = 0) /\
    0 <= confidence (match_face 2 (Some [0; 0]) [[0; 0]; [3; 4]] ["Alice"%string; "Bob"%string]) <= 1 /\
    (d = 2 ->
     matched (match_face 2 (Some [0; 0]) [[0; 0]; [3; 4]] ["Alice"%string; "Bob"%string]) = true /\
     confidence (match_face 2 (Some [0; 0]) [[0; 0]; [3; 4]] ["Alice"%string; "Bob"%string]) = 0) /\
    (d = 0 ->
     matched (match_face 2 (Some [0; 0]) [[0; 0]; [3; 4]] ["Alice"%string; "Bob"%string]) = true /\
     confidence (match_face 2 (Some [0; 0]) [[0; 0]; [3; 4]] ["Alice"%string; "Bob"%string]) = 1).
Proof.
  split; [lra | split; [reflexivity |]].
  apply (C5_min_distance_threshold_confidence 2 [0; 0] [0; 0] [[3; 4]]); [lra | reflexivity].
Defined.

(** ** C8 *)

(** C8: when the name list and the encoding list differ in length,
    [match_face] returns the non-match result (not matched, no name,
    confidence 0, distance [inf]) instead of raising. *)
Theorem C8_length_mismatch_non_match threshold q encs names :
  length names <> length encs -> match_face threshold q encs names = non_match.
Proof.
  intros H; destruct q as [q|]; [| reflexivity].
  destruct encs as [|e es]; [reflexivity |].
  unfold match_face; apply Nat.eqb_neq in H; rewrite H; reflexivity.
Qed.

Lemma C8_length_mismatch_non_match_witness :
  length (@nil String.string) <> length [[0]] /\
  match_face 1 (Some [0]) [[0]] [] = non_match.
Proof.
  split; [simpl; lia |].
  apply C8_length_mismatch_non_match; simpl; lia.
Defined.

(** ** C9 *)

(** C9: an absent query, or an empty registry, gives the non-match
    result (not matched, distance [inf], confidence 0). *)
Theorem C9_absent_query_or_empty_registry threshold :
  (forall encs names, match_face threshold None encs names = non_match) /\
  (forall q names, match_face threshold q [] names = non_match).
Proof.
  split; intros; [reflexivity | destruct q; reflexivity].
Qed.

End MatcherFacts.

Module LedgerFacts.
Import Ledger.
Open Scope Q_scope.

Lemma find_app_l {A} (p : A -> bool) l1 l2 :
  find p l1 = None -> find p (l1 ++ l2) = find p l2.
Proof. induction l1 as [|x l1 IH]; simpl; [auto | destruct (p x); [discriminate | auto]]. Qed.

Lemma find_none_all {A} (p : A -> bool) l :
  (forall x, In x l -> p x = false) -> find p l = None.
Proof.
  induction l as [|x l IH]; intros H; simpl; [reflexivity |].
  rewrite (H x (or_introl eq_refl)); apply IH; intros y Hy; apply H; right; exact Hy.
Qed.

Lemma find_ext_in {A} (p q : A -> bool) l :
  (forall x, In x l -> p x = q x) -> find p l = find q l.
Proof.
  induction l as [|x l IH]; intros H; simpl; [reflexivity |].
  rewrite (H x (or_introl eq_refl)); destruct (q x); [reflexivity |].
  apply IH; intros y Hy; apply H; right; exact Hy.
Qed.

Lemma find_true_some {A} (p : A -> bool) l x :
  In x l -> p x = true -> exists y, find p l = Some y.
Proof.
  intros Hin Hp; destruct (find p l) as [y|] eqn:E; [eauto |].
  rewrite (find_none p l E x Hin) in Hp; discriminate.
Qed.

(** The 10 s scan stops at the last entry of [n] that is at most 10 s
    old. *)
Lemma get_status_recent_split now n L1 e L2 :
  name e = n -> now - timestamp e <= 10 ->
  (forall e', In e' L2 -> name e' = n -> ~ now - timestamp e' <= 10) ->
  get_status_recent now n (L1 ++ e :: L2) = Some (type e).
Proof.
  intros Hn Ht H2; unfold get_status_recent.
  rewrite rev_app_distr; simpl; rewrite <- app_assoc; simpl.
  rewrite find_app_l.
  - simpl; rewrite Hn, String.eqb_refl; simpl.
    apply Qle_bool_iff in Ht; rewrite Ht; reflexivity.
  - apply find_none_all; intros x Hx; apply in_rev in Hx.
    destruct (String.eqb (name x) n) eqn:E; simpl; [| reflexivity].
    apply String.eqb_eq in E; destruct (Qle_bool (now - timestamp x) 10) eqn:F; [| reflexivity].
    apply Qle_bool_iff in F; exfalso; exact (H2 x Hx E F).
Qed.

Lemma punch_in_accepted n fid now today clock L e L' :
  punch_in n fid now today clock L = (Accepted e, L') ->
  get_status_recent now n L = None /\
  e = mkEntry n fid punch_in_kind now today clock None /\ L' = L ++ [e].
Proof.
  unfold punch_in; destruct (get_status_recent now n L) as [[|]|];
    intros H; inversion H; subst; auto.
Qed.

(** The well-formedness every ledger built by the code has: every entry
    has an ENTRY of the same name on the same day, and every EXIT
    carries a duration. *)
Definition wf (L : Logs) : Prop :=
  (forall e, In e L -> exists p, In p L /\ name p = name e /\ date p = date e /\
                                 type p = punch_in_kind) /\
  (forall e, In e L -> type e = punch_out_kind -> duration e <> None).

Lemma get_status_today_some today n L k :
  get_status_today today n L = Some k ->
  exists x, In x L /\ name x = n /\ date x = today.
Proof.
  unfold get_status_today.
  destruct (find _ (rev L)) as [x|] eqn:E; [intros _ | discriminate].
  apply find_some in E; destruct E as [Hin Hp]; apply in_rev in Hin.
  apply andb_prop in Hp; destruct Hp as [H1 H2].
  apply String.eqb_eq in H1; apply Z.eqb_eq in H2; eauto.
Qed.

Lemma wf_last_punch_in today n L k :
  wf L -> get_status_today today n L = Some k ->
  exists p, get_last_punch_in_today today n L = Some p.
Proof.
  intros [Hw _] Hs; destruct (get_status_today_some _ _ _ _ Hs) as (x & Hx & Hn & Hd).
  destruct (Hw x Hx) as (p & Hp & Hpn & Hpd & Hpt).
  apply (find_true_some _ _ p); [rewrite <- in_rev; exact Hp |].
  rewrite Hpn, Hpd, Hpt, Hn, Hd, String.eqb_refl, Z.eqb_refl; reflexivity.
Qed.

Lemma wf_nil : wf [].
Proof. split; intros e []. Qed.

Lemma wf_punch_in n fid now today clock L :
  wf L -> wf (snd (punch_in n fid now today clock L)).
Proof.
  intros [Hw Hd]; unfold punch_in.
  destruct (get_status_recent now n L) as [[|]|]; simpl; [split; auto | split; auto |].
  split.
  - intros e He; apply in_app_or in He; destruct He as [He|[<-|[]]].
    + destruct (Hw e He) as (p & Hp & Hq); exists p; split; [apply in_or_app; left; exact Hp | exact Hq].
    + eexists; split; [apply in_or_app; right; left; reflexivity | simpl; auto].
  - intros e He; apply in_app_or in He; destruct He as [He|[<-|[]]]; [apply Hd; exact He |].
    simpl; discriminate.
Qed.

Lemma wf_punch_out n fid now today clock L :
  wf L -> wf (snd (punch_out n fid now today clock L)).
Proof.
  intros HL; pose proof HL as [Hw Hd]; unfold punch_out.
  destruct (get_status_today today n L) as [k|] eqn:Hs; simpl; [| exact HL].
  destruct (match k with punch_in_kind => false | punch_out_kind => _ end);
    simpl; [exact HL |].
  destruct (get_status_today_some _ _ _ _ Hs) as (x & Hx & Hn & Hdx).
  destruct (wf_last_punch_in today n L k HL Hs) as [p Hp]; rewrite Hp.
  split.
  - intros e He; apply in_app_or in He; destruct He as [He|[<-|[]]].
    + destruct (Hw e He) as (q & Hq & Hr); exists q; split; [apply in_or_app; left; exact Hq | exact Hr].
    + destruct (Hw x Hx) as (q & Hq & Hqn & Hqd & Hqt).
      exists q; split; [apply in_or_app; left; exact Hq |]; simpl; rewrite Hqn, Hqd, Hn, Hdx; auto.
  - intros e He; apply in_app_or in He; destruct He as [He|[<-|[]]]; [apply Hd; exact He |].
    simpl; discriminate.
Qed.

Lemma reachable_wf L : reachable L -> wf L.
Proof.
  induction 1; [apply wf_nil | apply wf_punch_in; auto | apply wf_punch_out; auto].
Qed.

(** ** C3 *)

(** C3: if the most recent event of [n] is an ENTRY at most 10 s old, a
    new [punch_in] for [n] is rejected as duplicate and the ledger is
    unchanged; after an accepted [punch_in] at time [t], a second one at
    [t + 2] is rejected as duplicate and a second one at [t + 11] is
    accepted. *)
Theorem C3_recent_entry_duplicate :
  (forall L1 e L2 n fid now today clock,
     name e = n -> type e = punch_in_kind -> now - timestamp e <= 10 ->
     (forall e', In e' L2 -> name e' <> n) ->
     punch_in n fid now today clock (L1 ++ e :: L2) =
       (Rejected duplicate, L1 ++ e :: L2)) /\
  (forall L n fid t today c1 c2 e L',
     punch_in n fid t today c1 L = (Accepted e, L') ->
     punch_in n fid (t + 2) today c2 L' = (Rejected duplicate, L') /\
     exists e2, fst (punch_in n fid (t + 11) today c2 L') = Accepted e2).
Proof.
  split.
  - intros L1 e L2 n fid now today clock Hn Hk Ht H2; unfold punch_in.
    rewrite (get_status_recent_split now n L1 e L2 Hn Ht); [rewrite Hk; reflexivity |].
    intros e' He' Hn'; exfalso; exact (H2 e' He' Hn').
  - intros L n fid t today c1 c2 e L' H.
    destruct (punch_in_accepted _ _ _ _ _ _ _ _ H) as (Hr & -> & ->); split.
    + unfold punch_in.
      rewrite (get_status_recent_split (t + 2) n L (mkEntry n fid punch_in_kind t today c1 None) [] eq_refl);
        [reflexivity | simpl; Lqa.lra | intros _ []].
    + unfold punch_in.
      replace (get_status_recent (t + 11) n _) with (@None Kind); [eexists; reflexivity |].
      unfold get_status_recent in *; rewrite rev_app_distr; simpl.
      rewrite String.eqb_refl; simpl.
      replace (Qle_bool (t + 11 - t) 10) with false
        by (symmetry; apply not_true_iff_false; rewrite Qle_bool_iff; Lqa.lra).
      destruct (find _ (rev L)) as [x|] eqn:E; [discriminate |].
      assert (E2 : find (fun e => String.eqb (name e) n &&
                                  Qle_bool (t + 11 - timestamp e) 10) (rev L) = None).
      { apply find_none_all; intros x Hx.
        pose proof (find_none _ _ E x Hx) as Hf; simpl in Hf.
        destruct (String.eqb (name x) n); simpl in *; [| reflexivity].
        apply not_true_iff_false; rewrite Qle_bool_iff; intros Hle.
        apply not_true_iff_false in Hf; apply Hf; apply Qle_bool_iff; Lqa.lra. }
      rewrite E2; reflexivity.
Qed.

Lemma C3_recent_entry_duplicate_witness :
  punch_in "Alice" 0 0 1 "09:00:00" [] =
    (Accepted (mkEntry "Alice" 0 punch_in_kind 0 1 "09:00:00" None),
     [mkEntry "Alice" 0 punch_in_kind 0 1 "09:00:00" None]) /\
  punch_in "Alice" 0 (0 + 2) 1 "09:00:02" [mkEntry "Alice" 0 punch_in_kind 0 1 "09:00:00" None] =
    (Rejected duplicate, [mkEntry "Alice" 0 punch_in_kind 0 1 "09:00:00" None]) /\
  exists e2, fst (punch_in "Alice" 0 (0 + 11) 1 "09:00:02"
                   [mkEntry "Alice" 0 punch_in_kind 0 1 "09:00:00" None]) = Accepted e2.
Proof.
  split; [reflexivity |].
  apply (proj2 C3_recent_entry_duplicate [] "Alice"%string 0%Z 0 1%Z "09:00:00"%string
           "09:00:02"%string (mkEntry "Alice" 0 punch_in_kind 0 1 "09:00:00" None)
           [mkEntry "Alice" 0 punch_in_kind 0 1 "09:00:00" None]); reflexivity.
Defined.

(** ** C10 *)

(** C10: if the most recent event of [n] at most 10 s old is an EXIT,
    [punch_in] for [n] is rejected with [already_completed] and the
    ledger is unchanged. *)
Theorem C10_recent_exit_already_completed L1 e L2 n fid now today clock :
  name e = n -> type e = punch_out_kind -> now - timestamp e <= 10 ->
  (forall e', In e' L2 -> name e' = n -> ~ now - timestamp e' <= 10) ->
  punch_in n fid now today clock (L1 ++ e :: L2) =
    (Rejected already_completed, L1 ++ e :: L2).
Proof.
  intros Hn Hk Ht H2; unfold punch_in.
  rewrite (get_status_recent_split now n L1 e L2 Hn Ht H2), Hk; reflexivity.
Qed.

Lemma C10_recent_exit_already_completed_witness :
  punch_in "Alice" 0 5 1 "09:00:05"
    ([] ++ mkEntry "Alice" 0 punch_out_kind 0 1 "09:00:00" (Some 0) :: []) =
  (Rejected already_completed,
   [] ++ mkEntry "Alice" 0 punch_out_kind 0 1 "09:00:00" (Some 0) :: []).
Proof.
  apply C10_recent_exit_already_completed;
    [reflexivity | reflexivity | vm_compute; discriminate | intros e' []].
Defined.

(** ** C4 *)

(** C4 (counterexample): a ledger whose only event of the day for
    "Alice" is an EXIT: [punch_out] is accepted and records no
    duration. *)
Lemma C4_exit_without_entry :
  get_status_today 1 "Alice" [mkEntry "Alice" 0 punch_out_kind 0 1 "09:00:00" None]
    = Some punch_out_kind /\
  get_last_punch_in_today 1 "Alice" [mkEntry "Alice" 0 punch_out_kind 0 1 "09:00:00" None]
    = None /\
  punch_out "Alice" 0 100 1 "09:01:40" [mkEntry "Alice" 0 punch_out_kind 0 1 "09:00:00" None] =
    (Accepted (mkEntry "Alice" 0 punch_out_kind 100 1 "09:01:40" None),
     [mkEntry "Alice" 0 punch_out_kind 0 1 "09:00:00" None;
      mkEntry "Alice" 0 punch_out_kind 100 1 "09:01:40" None]).
Proof. split; [reflexivity | split; reflexivity]. Qed.

(** C4 (amended): [punch_out] is rejected with [not_punched_in] when [n]
    has no event today; an accepted [punch_out] appends one EXIT whose
    duration is [now] minus the timestamp of the most recent ENTRY of
    [n] today when there is one, and no duration otherwise; in every
    ledger built by [punch_in] and [punch_out] from an empty log, that
    ENTRY always exists. *)
Theorem C4_punch_out_today_duration n fid now today clock L :
  (get_status_today today n L = None ->
   punch_out n fid now today clock L = (Rejected not_punched_in, L)) /\
  (forall e L', punch_out n fid now today clock L = (Accepted e, L') ->
   L' = L ++ [e] /\ type e = punch_out_kind /\ name e = n /\
   duration e = match get_last_punch_in_today today n L with
                | Some p => Some (now - timestamp p)
                | None => None
                end) /\
  (reachable L -> forall e L', punch_out n fid now today clock L = (Accepted e, L') ->
   exists p, get_last_punch_in_today today n L = Some p /\
             duration e = Some (now - timestamp p)).
Proof.
  assert (Hacc : forall e L', punch_out n fid now today clock L = (Accepted e, L') ->
    (exists k, get_status_today today n L = Some k) /\
    L' = L ++ [e] /\ type e = punch_out_kind /\ name e = n /\
    duration e = match get_last_punch_in_today today n L with
                 | Some p => Some (now - timestamp p)
                 | None => None
                 end).
  { intros e L'; unfold punch_out.
    destruct (get_status_today today n L) as [k|]; [| discriminate].
    destruct (match k with punch_in_kind => false | punch_out_kind => _ end);
      [discriminate |].
    intros H; inversion H; subst; split; [eauto | auto]. }
  split; [| split].
  - intros H; unfold punch_out; rewrite H; reflexivity.
  - intros e L' H; destruct (Hacc e L' H) as [_ Hr]; exact Hr.
  - intros Hreach e L' H; destruct (Hacc e L' H) as ([k Hk] & _ & _ & _ & Hd).
    destruct (wf_last_punch_in today n L k (reachable_wf L Hreach) Hk) as [p Hp].
    rewrite Hp in Hd; eauto.
Qed.

(** *** The grouping loop of [get_today_summary] *)

Definition isSomeQ (o : option Q) : bool :=
  match o with Some _ => true | None => false end.

(** What a row holds after the loop has seen the logs [S]. *)
Definition row_spec (S : Logs) (r : Row) : Prop :=
  row_punch_in r =
    option_map time (find (fun e => String.eqb (name e) (row_name r) &&
                                     kind_eqb (type e) punch_in_kind) (rev S)) /\
  row_punch_out r =
    option_map time (find (fun e => String.eqb (name e) (row_name r) &&
                                     kind_eqb (type e) punch_out_kind) (rev S)) /\
  row_duration r =
    match find (fun e => String.eqb (name e) (row_name r) &&
                         kind_eqb (type e) punch_out_kind &&
                         isSomeQ (duration e)) (rev S) with
    | Some e => duration e
    | None => None
    end /\
  row_status r = None.

Definition group_inv (S : Logs) (P : list Row) : Prop :=
  NoDup (map row_name P) /\
  (forall m, In m (map row_name P) <-> exists e, In e S /\ name e = m) /\
  (forall r, In r P -> row_spec S r).

Lemma update_row_names n f P :
  (forall r, row_name (f r) = row_name r) ->
  map row_name (update_row n f P) = map row_name P.
Proof.
  intros Hf; induction P as [|r P IH]; simpl; [reflexivity |].
  destruct (String.eqb (row_name r) n); simpl; rewrite ?Hf, ?IH; reflexivity.
Qed.

Lemma update_row_in n f P r :
  NoDup (map row_name P) -> In r (update_row n f P) ->
  (row_name r <> n /\ In r P) \/ (exists r0, In r0 P /\ row_name r0 = n /\ r = f r0).
Proof.
  induction P as [|r1 P IH]; simpl; [intros _ [] |]; intros Hnd Hin.
  inversion Hnd as [|? ? Hnot Hnd']; subst.
  destruct (String.eqb (row_name r1) n) eqn:E.
  - apply String.eqb_eq in E; destruct Hin as [<-|Hin].
    + right; exists r1; auto.
    + left; split; [| right; exact Hin].
      intros Hr; apply Hnot; rewrite E, <- Hr; apply in_map; exact Hin.
  - destruct Hin as [<-|Hin].
    + left; split; [apply String.eqb_neq; exact E | left; reflexivity].
    + destruct (IH Hnd' Hin) as [[H1 H2]|(r0 & H1 & H2)]; [left; auto | right; eauto].
Qed.

Lemma existsb_row_name m P :
  existsb (fun r => String.eqb (row_name r) m) P = true <-> In m (map row_name P).
Proof.
  rewrite existsb_exists; split.
  - intros (r & Hr & E); apply String.eqb_eq in E; subst; apply in_map; exact Hr.
  - intros Hm; apply in_map_iff in Hm; destruct Hm as (r & <- & Hr).
    exists r; split; [exact Hr | apply String.eqb_refl].
Qed.

Lemma find_rev_snoc {A} (p : A -> bool) S x :
  find p (rev (S ++ [x])) = if p x then Some x else find p (rev S).
Proof. rewrite rev_app_distr; reflexivity. Qed.

Lemma row_spec_other S x r :
  row_spec S r -> row_name r <> name x -> row_spec (S ++ [x]) r.
Proof.
  intros (H1 & H2 & H3 & H4) Hne; apply not_eq_sym, String.eqb_neq in Hne.
  unfold row_spec; rewrite !find_rev_snoc, Hne; simpl; auto.
Qed.

Lemma row_spec_apply S x r :
  row_spec S r -> row_name r = name x -> row_spec (S ++ [x]) (apply_log x r).
Proof.
  intros (H1 & H2 & H3 & H4) Heq.
  unfold row_spec, apply_log; rewrite !find_rev_snoc.
  destruct (type x); simpl; rewrite Heq, String.eqb_refl; simpl; rewrite <- Heq.
  - repeat split; assumption.
  - destruct (duration x) as [d|] eqn:Ed; simpl;
      repeat split; first [assumption | symmetry; assumption].
Qed.

Lemma row_spec_new S n :
  (forall e, In e S -> name e <> n) -> row_spec S (new_row n).
Proof.
  intros H; unfold row_spec, new_row; simpl.
  assert (Hn : forall (q : Entry -> bool),
            (forall e, String.eqb (name e) n = false -> q e = false) ->
            find q (rev S) = None).
  { intros q Hq; apply find_none_all; intros x Hx; apply in_rev in Hx.
    apply Hq, String.eqb_neq, H, Hx. }
  rewrite !Hn; [repeat split | intros e E; rewrite E; reflexivity ..].
Qed.

Lemma group_step_inv S P x :
  group_inv S P -> group_inv (S ++ [x]) (group_step P x).
Proof.
  intros (Hnd & Hnm & Hrs); unfold group_step.
  set (P1 := if existsb (fun r => String.eqb (row_name r) (name x)) P then P
             else P ++ [new_row (name x)]).
  assert (HP1 : NoDup (map row_name P1) /\
                (forall m, In m (map row_name P1) <-> In m (map row_name P) \/ m = name x) /\
                (forall r, In r P1 -> row_spec S r)).
  { unfold P1; destruct (existsb _ P) eqn:E.
    - apply existsb_row_name in E; split; [exact Hnd | split; [| exact Hrs]].
      intros m; split; [auto | intros [H| ->]; auto].
    - assert (Hx : ~ In (name x) (map row_name P))
        by (intros H; apply existsb_row_name in H; congruence).
      rewrite map_app; simpl; split; [| split].
      + apply NoDup_app; [exact Hnd | constructor; [intros [] | constructor] |].
        intros m Hm [<-|[]]; contradiction.
      + intros m; rewrite in_app_iff; simpl; split; [intros [H|[H|[]]]; auto | ].
        intros [H|H]; auto.
      + intros r Hr; apply in_app_or in Hr; destruct Hr as [Hr|[<-|[]]]; [auto |].
        apply row_spec_new; intros e He Hn; apply Hx, Hnm; eauto. }
  destruct HP1 as (Hnd1 & Hnm1 & Hrs1).
  assert (Hnames : map row_name (update_row (name x) (apply_log x) P1) = map row_name P1)
    by (apply update_row_names; intros r; unfold apply_log; destruct (type x); reflexivity).
  split; [| split].
  - rewrite Hnames; exact Hnd1.
  - intros m; rewrite Hnames, Hnm1, Hnm; split.
    + intros [(e & He & <-)| ->]; [exists e | exists x]; rewrite in_app_iff; simpl; auto.
    + intros (e & He & <-); rewrite in_app_iff in He; destruct He as [He|[<-|[]]]; eauto.
  - intros r Hr; destruct (update_row_in _ _ _ _ Hnd1 Hr) as [[Hne Hin]|(r0 & Hin & Hn & ->)].
    + apply row_spec_other; auto.
    + apply row_spec_apply; auto.
Qed.

Lemma group_loop_inv S : group_inv S (fold_left group_step S []).
Proof.
  induction S as [|x S IH] using rev_ind.
  - split; [constructor | split; [intros m; split; [intros [] | intros (e & [] & _)] | intros r []]].
  - rewrite fold_left_app; simpl; apply group_step_inv; exact IH.
Qed.

Lemma find_rev_filter {A} (f p : A -> bool) l :
  find p (rev (filter f l)) = find (fun x => f x && p x) (rev l).
Proof.
  induction l as [|x l IH] using rev_ind; [reflexivity |].
  rewrite filter_app, !rev_app_distr; simpl.
  destruct (f x); simpl; [destruct (p x); [reflexivity | exact IH] | exact IH].
Qed.

Lemma today_find_latest today m k L :
  find (fun e => String.eqb (name e) m && kind_eqb (type e) k)
       (rev (get_today_logs today L)) = latest today m k L.
Proof.
  unfold get_today_logs, latest; rewrite find_rev_filter; apply find_ext_in.
  intros x _; destruct (Z.eqb (date x) today), (String.eqb (name x) m); reflexivity.
Qed.

Lemma today_find_duration today m L :
  match find (fun e => String.eqb (name e) m && kind_eqb (type e) punch_out_kind &&
                       isSomeQ (duration e)) (rev (get_today_logs today L)) with
  | Some e => duration e
  | None => None
  end = latest_duration today m L.
Proof.
  unfold get_today_logs, latest_duration; rewrite find_rev_filter.
  match goal with
  | |- match find ?p _ with _ => _ end = match find ?q _ with _ => _ end =>
      rewrite (find_ext_in p q); [reflexivity |]
  end.
  intros x _; destruct (Z.eqb (date x) today), (String.eqb (name x) m),
    (kind_eqb (type x) punch_out_kind), (duration x); reflexivity.
Qed.

Lemma latest_in today m k L e : latest today m k L = Some e -> In e L.
Proof. intros H; apply find_some in H; apply in_rev, H. Qed.

Lemma names_set_status P : map row_name (map set_status P) = map row_name P.
Proof. induction P as [|r P IH]; simpl; [reflexivity | rewrite IH; reflexivity]. Qed.

(** In a ledger where every EXIT carries a duration, the latest EXIT
    carrying one is the latest EXIT. *)
Lemma latest_duration_wf today m L :
  wf L ->
  latest_duration today m L =
  match latest today m punch_out_kind L with Some e => duration e | None => None end.
Proof.
  intros [_ Hd]; unfold latest_duration, latest.
  match goal with
  | |- match find ?p _ with _ => _ end = match find ?q _ with _ => _ end =>
      rewrite (find_ext_in p q); [reflexivity |]
  end.
  intros x Hx; apply in_rev in Hx.
  destruct (String.eqb (name x) m), (Z.eqb (date x) today); simpl; try reflexivity.
  destruct (type x) eqn:Ek; simpl; [reflexivity |].
  destruct (duration x) as [d|] eqn:E; [reflexivity |].
  exfalso; exact (Hd x Hx Ek E).
Qed.

(** ** C6 *)

(** C6 (counterexample): "Alice" has an ENTRY, an EXIT with a duration
    of one hour and a later EXIT without a duration today; the summary
    reports the latest EXIT time with the earlier EXIT's duration. *)
Lemma C6_stale_duration :
  let L := [mkEntry "Alice" 0 punch_in_kind 0 1 "09:00:00" None;
            mkEntry "Alice" 0 punch_out_kind 3600 1 "10:00:00" (Some 3600);
            mkEntry "Alice" 0 punch_out_kind 7200 1 "11:00:00" None] in
  option_map duration (latest 1 "Alice" punch_out_kind L) = Some None /\
  get_today_summary 1 L =
    [mkRow "Alice" (Some "09:00:00"%string) (Some "11:00:00"%string) (Some 3600) (Some Completed)].
Proof. split; reflexivity. Qed.

(** C6 (amended): the today summary has one row per name that has an
    event today, and no other; each row holds the time of the latest
    ENTRY and of the latest EXIT of that name today and the duration of
    the latest EXIT today that carries one; with non-empty time strings
    (as the code writes them) the status is Completed when both times
    are present and Checked In when only the ENTRY time is; in a ledger
    built by [punch_in] and [punch_out] from an empty log the duration
    is the latest EXIT's own. *)
Theorem C6_today_summary today L :
  NoDup (map row_name (get_today_summary today L)) /\
  (forall m, In m (map row_name (get_today_summary today L)) <->
             exists e, In e L /\ date e = today /\ name e = m) /\
  (forall r, In r (get_today_summary today L) ->
     row_punch_in r = option_map time (latest today (row_name r) punch_in_kind L) /\
     row_punch_out r = option_map time (latest today (row_name r) punch_out_kind L) /\
     row_duration r = latest_duration today (row_name r) L /\
     ((forall e, In e L -> time e <> ""%string) ->
        (row_punch_in r <> None -> row_punch_out r <> None ->
         row_status r = Some Completed) /\
        (row_punch_in r <> None -> row_punch_out r = None ->
         row_status r = Some Checked_In)) /\
     (reachable L ->
        row_duration r = match latest today (row_name r) punch_out_kind L with
                         | Some e => duration e
                         | None => None
                         end)).
Proof.
  destruct (group_loop_inv (get_today_logs today L)) as (Hnd & Hnm & Hrs).
  unfold get_today_summary; rewrite names_set_status.
  split; [exact Hnd | split].
  - intros m; rewrite Hnm; split.
    + intros (e & He & <-); unfold get_today_logs in He; apply filter_In in He.
      destruct He as [He Hd]; apply Z.eqb_eq in Hd; eauto.
    + intros (e & He & Hd & <-); exists e; split; [| reflexivity].
      unfold get_today_logs; apply filter_In; split; [exact He | apply Z.eqb_eq, Hd].
  - intros r Hr; apply in_map_iff in Hr; destruct Hr as (r0 & <- & Hr0).
    destruct (Hrs r0 Hr0) as (H1 & H2 & H3 & _).
    rewrite today_find_latest in H1, H2; rewrite today_find_duration in H3.
    assert (Htr : (forall e, In e L -> time e <> ""%string) -> forall k,
              option_map time (latest today (row_name r0) k L) <> None ->
              truthy (option_map time (latest today (row_name r0) k L)) = true).
    { intros Ht k Hs; destruct (latest today (row_name r0) k L) as [e|] eqn:E;
        [| contradiction Hs; reflexivity].
      simpl; apply negb_true_iff, String.eqb_neq, Ht, (latest_in _ _ _ _ _ E). }
    unfold set_status; simpl.
    split; [exact H1 | split; [exact H2 | split; [exact H3 | split]]].
    + intros Ht; rewrite H1, H2; split.
      * intros Hi Ho; rewrite (Htr Ht _ Hi), (Htr Ht _ Ho); reflexivity.
      * intros Hi Ho; rewrite Ho; rewrite (Htr Ht _ Hi); reflexivity.
    + intros Hreach; rewrite H3; apply latest_duration_wf, reachable_wf, Hreach.
Qed.

(** The summary scenario of the specification: Alice ENTRY 09:00, Bob
    ENTRY 09:05, Alice EXIT 17:00 with its 8 h duration. *)
Example summary_alice_bob :
  get_today_summary 1
    [mkEntry "Alice" 0 punch_in_kind 32400 1 "09:00:00" None;
     mkEntry "Bob" 1 punch_in_kind 32700 1 "09:05:00" None;
     mkEntry "Alice" 0 punch_out_kind 61200 1 "17:00:00" (Some 28800)] =
  [mkRow "Alice" (Some "09:00:00"%string) (Some "17:00:00"%string) (Some 28800) (Some Completed);
   mkRow "Bob" (Some "09:05:00"%string) None None (Some Checked_In)].
Proof. reflexivity. Qed.

End LedgerFacts.

Module RegistryFacts.
Import Registry.
Open Scope R_scope.

Lemma vadd_length a b : length (vadd a b) = Nat.min (length a) (length b).
Proof. unfold vadd; rewrite length_map, length_combine; reflexivity. Qed.

Lemma vadd_nth a b j :
  (j < length a)%nat -> (j < length b)%nat ->
  nth j (vadd a b) 0 = nth j a 0 + nth j b 0.
Proof.
  revert b j; induction a as [|x a IH]; intros b j Ha Hb; [simpl in Ha; lia |].
  destruct b as [|y b]; [simpl in Hb; lia |].
  destruct j as [|j]; [reflexivity |].
  simpl in *; apply IH; lia.
Qed.

Lemma fold_vadd_length d ss acc :
  length acc = d -> Forall (fun v => length v = d) ss ->
  length (fold_left vadd ss acc) = d.
Proof.
  revert acc; induction ss as [|s ss IH]; intros acc Hacc Hall; simpl; [exact Hacc |].
  apply IH; [| exact (Forall_inv_tail Hall)].
  rewrite vadd_length, Hacc, (Forall_inv Hall); apply Nat.min_id.
Qed.

Lemma fold_vadd_column d j ss acc :
  length acc = d -> Forall (fun v => length v = d) ss -> (j < d)%nat ->
  nth j (fold_left vadd ss acc) 0 =
    nth j acc 0 + fold_right Rplus 0 (map (fun v => nth j v 0) ss).
Proof.
  revert acc; induction ss as [|s ss IH]; intros acc Hacc Hall Hj; simpl; [ring |].
  pose proof (Forall_inv Hall) as Hs; simpl in Hs.
  rewrite (IH (vadd acc s)); [| | exact (Forall_inv_tail Hall) | exact Hj].
  - rewrite vadd_nth by lia; ring.
  - rewrite vadd_length, Hacc, Hs; apply Nat.min_id.
Qed.

Lemma mean_length d samples :
  Forall (fun v => length v = d) samples -> samples <> [] ->
  length (mean samples) = d.
Proof.
  intros Hall Hne; destruct samples as [|s ss]; [contradiction Hne; reflexivity |].
  unfold mean; rewrite length_map.
  apply fold_vadd_length; [exact (Forall_inv Hall) | exact (Forall_inv_tail Hall)].
Qed.

Lemma mean_column d j samples :
  samples <> [] -> Forall (fun v => length v = d) samples -> (j < d)%nat ->
  nth j (mean samples) 0 =
    fold_right Rplus 0 (map (fun v => nth j v 0) samples) / INR (length samples).
Proof.
  intros Hne Hall Hj; pose proof (mean_length d samples Hall Hne) as Hl.
  rewrite nth_indep with (d' := 0 / INR (length samples)) by lia.
  destruct samples as [|s ss]; [contradiction Hne; reflexivity |].
  unfold mean; cbv zeta iota.
  change (0 / INR (length (s :: ss))) with ((fun x => x / INR (length (s :: ss))) 0).
  rewrite map_nth.
  rewrite (fold_vadd_column d j ss s (Forall_inv Hall) (Forall_inv_tail Hall) Hj).
  reflexivity.
Qed.

(** ** C7 *)

(** C7: registering seven sample vectors of size [d] stores their
    element-wise mean as a new last row of the encodings, appends the
    name, and returns as id the number of registered faces before the
    insertion (0 for the first registration); when the registry's faces
    and encodings are aligned, the new row sits at that id. *)
Theorem C7_register_mean_and_id st nm now samples d :
  length samples = 7%nat -> Forall (fun v => length v = d) samples ->
  exists st',
    register_samples nm samples now st = Some (length (faces st), st') /\
    get_all_names st' = get_all_names st ++ [nm] /\
    length (encodings st') = S (length (encodings st)) /\
    nth_error (encodings st') (length (encodings st)) = Some (mean samples) /\
    (length (faces st) = length (encodings st) ->
     nth_error (encodings st') (length (faces st)) = Some (mean samples)) /\
    length (mean samples) = d /\
    (forall j, (j < d)%nat ->
       nth j (mean samples) 0 = fold_right Rplus 0 (map (fun v => nth j v 0) samples) / 7).
Proof.
  intros Hlen Hall.
  assert (Hne : samples <> []) by (intros ->; discriminate).
  assert (Henc : nth_error (match encodings st with
                            | [] => [mean samples]
                            | _ :: _ => encodings st ++ [mean samples]
                            end) (length (encodings st)) = Some (mean samples) /\
                 length (match encodings st with
                         | [] => [mean samples]
                         | _ :: _ => encodings st ++ [mean samples]
                         end) = S (length (encodings st))).
  { destruct (encodings st) as [|e es]; [split; reflexivity |].
    rewrite nth_error_app2, Nat.sub_diag, length_app by lia; simpl; split; [reflexivity | lia]. }
  destruct Henc as [Hn Hl].
  eexists; split; [unfold register_samples; rewrite Hlen; reflexivity |].
  simpl; split; [unfold get_all_names; simpl; rewrite map_app; reflexivity |].
  split; [exact Hl | split; [exact Hn | split; [intros Hfe; rewrite Hfe; exact Hn |]]].
  split; [exact (mean_length d samples Hall Hne) |].
  intros j Hj; rewrite (mean_column d j samples Hne Hall Hj), Hlen.
  rewrite INR_IZR_INZ; reflexivity.
Qed.

Lemma C7_register_mean_and_id_witness :
  length [[1]; [2]; [3]; [4]; [5]; [6]; [7]] = 7%nat /\
  Forall (fun v => length v = 1%nat) [[1]; [2]; [3]; [4]; [5]; [6]; [7]] /\
  exists st',
    register_samples "Alice" [[1]; [2]; [3]; [4]; [5]; [6]; [7]] "2026-01-01T09:00:00"
      (mkFaceStorage [] []) = Some (0%nat, st') /\
    get_all_names st' = ["Alice"%string] /\
    nth_error (encodings st') 0 = Some (mean [[1]; [2]; [3]; [4]; [5]; [6]; [7]]) /\
    nth 0 (mean [[1]; [2]; [3]; [4]; [5]; [6]; [7]]) 0 =
      fold_right Rplus 0 (map (fun v => nth 0 v 0) [[1]; [2]; [3]; [4]; [5]; [6]; [7]]) / 7.
Proof.
  assert (Hf : Forall (fun v => length v = 1%nat) [[1]; [2]; [3]; [4]; [5]; [6]; [7]])
    by (repeat constructor).
  split; [reflexivity | split; [exact Hf |]].
  destruct (C7_register_mean_and_id (mkFaceStorage [] []) "Alice" "2026-01-01T09:00:00"
              [[1]; [2]; [3]; [4]; [5]; [6]; [7]] 1 eq_refl Hf)
    as (st' & H1 & H2 & _ & H4 & _ & _ & H7).
  exists st'; split; [exact H1 | split; [exact H2 | split; [exact H4 | apply H7; lia]]].
Defined.

End RegistryFacts.

(* ================================================================= *)
(** * Further properties of the code *)

Module LivenessExtra.
Import Liveness LivenessFacts.
Open Scope Q_scope.

Lemma ear_div_eq h p :
  (inject_Z (Z.of_nat h) / inject_Z (Z.pos p) + 0) / inject_Z 1 == Z.of_nat h # p.
Proof. unfold Qeq; simpl; rewrite ?Pos.mul_1_r; lia. Qed.

Lemma quarter_le_frac a p : Qle_bool (1#4) (a # p) = Z.leb (Z.pos p) (4 * a).
Proof. unfold Qle_bool; simpl; rewrite Z.mul_comm; reflexivity. Qed.

Lemma Qle_bool_quarter_compat (x y : Q) : x == y -> Qle_bool (1#4) x = Qle_bool (1#4) y.
Proof.
  intros H; destruct (Qle_bool (1#4) y) eqn:E.
  - apply Qle_bool_iff; apply Qle_bool_iff in E; rewrite H; exact E.
  - apply not_true_iff_false; intros C; apply Qle_bool_iff in C; rewrite H in C.
    apply Qle_bool_iff in C; congruence.
Qed.

(** [calculate_ear] and the configured threshold 0.25: a frame with one
    eye region of height [h] and width [w] counts as closed eyes exactly
    when [4 h < w], or when the region has width 0 (its EAR is 0). *)
Theorem eye_region_closed h w :
  frame_closed (blink_threshold init) [calculate_ear h w] = (Nat.eqb w 0 || Nat.ltb (4 * h) w)%bool.
Proof.
  destruct w as [|w']; [reflexivity |].
  unfold frame_closed, Qltb, calculate_ear; simpl Nat.eqb; cbv iota.
  change (Z.of_nat (S w')) with (Z.pos (Pos.of_succ_nat w')).
  change (blink_threshold init) with (1#4); simpl sumQ; simpl length.
  change (Z.of_nat 1) with 1%Z.
  rewrite (Qle_bool_quarter_compat _ _ (ear_div_eq h (Pos.of_succ_nat w'))), quarter_le_frac.
  rewrite Znat.Zpos_P_of_succ_nat; simpl orb.
  destruct (Z.leb_spec (Z.succ (Z.of_nat w')) (4 * Z.of_nat h));
    destruct (Nat.ltb_spec (h + (h + (h + (h + 0)))) (S w')); simpl; lia.
Qed.

Lemma check_blink_closed d e :
  frame_closed (blink_threshold d) e = true ->
  let d' := snd (check_blink d e) in
  blink_threshold d' = blink_threshold d /\
  consecutive_frames d' = consecutive_frames d /\
  closed_frames d' = S (closed_frames d) /\ blink_count d' = blink_count d.
Proof.
  destruct e as [|x xs]; [discriminate |]; intros H; unfold frame_closed in H.
  unfold check_blink; rewrite H; simpl; auto.
Qed.

(** Blink counting in [check_blink]: starting from any detector, a run
    of closed-eye frames followed by an open-eye frame reports a blink,
    and adds one to [blink_count], exactly when the closed frames
    counted (those before the run plus the run) reach
    [consecutive_frames]; the closed-frame counter is then back to 0. *)
Theorem blink_after_closed_run d cs o :
  Forall (fun e => frame_closed (blink_threshold d) e = true) cs ->
  frame_open (blink_threshold d) o = true ->
  blink_detected (fst (check_blink (blink_run d cs) o)) =
    Nat.leb (consecutive_frames d) (closed_frames d + length cs) /\
  closed_frames (blink_run d (cs ++ [o])) = 0%nat /\
  blink_count (blink_run d (cs ++ [o])) =
    (if Nat.leb (consecutive_frames d) (closed_frames d + length cs)
     then S (blink_count d) else blink_count d).
Proof.
  intros Hc Ho.
  assert (Hrun : forall d0, blink_threshold d0 = blink_threshold d ->
     Forall (fun e => frame_closed (blink_threshold d) e = true) cs ->
     blink_threshold (blink_run d0 cs) = blink_threshold d0 /\
     consecutive_frames (blink_run d0 cs) = consecutive_frames d0 /\
     closed_frames (blink_run d0 cs) = (closed_frames d0 + length cs)%nat /\
     blink_count (blink_run d0 cs) = blink_count d0).
  { clear Hc; unfold blink_run; induction cs as [|c cs IH]; intros d0 Ht Hall; simpl.
    - rewrite Nat.add_0_r; auto.
    - pose proof (Forall_inv Hall) as Hc; simpl in Hc; rewrite <- Ht in Hc.
      destruct (check_blink_closed d0 c Hc) as (H1 & H2 & H3 & H4).
      destruct (IH _ (eq_trans H1 Ht) (Forall_inv_tail Hall))
        as (J1 & J2 & J3 & J4).
      rewrite J1, J2, J3, J4, H1, H2, H3, H4; repeat split; lia. }
  destruct (Hrun d eq_refl Hc) as (H1 & H2 & H3 & H4).
  unfold blink_run in *; rewrite fold_left_app; simpl.
  destruct o as [|x xs]; [discriminate |]; unfold frame_open in Ho.
  remember (fold_left (fun d0 eyes => snd (check_blink d0 eyes)) cs d) as dc.
  rewrite <- H1 in Ho; apply negb_true_iff in Ho.
  unfold check_blink; rewrite Ho; simpl.
  rewrite H2, H3, H4; repeat split.
Qed.

Lemma blink_after_closed_run_witness :
  Forall (fun e => frame_closed (blink_threshold init) e = true) [[1#10]; [1#10]] /\
  frame_open (blink_threshold init) [1#2] = true /\
  blink_detected (fst (check_blink (blink_run init [[1#10]; [1#10]]) [1#2])) =
    Nat.leb (consecutive_frames init) (closed_frames init + 2) /\
  blink_count (blink_run init ([[1#10]; [1#10]] ++ [[1#2]])) =
    (if Nat.leb (consecutive_frames init) (closed_frames init + 2)
     then S (blink_count init) else blink_count init).
Proof.
  assert (Hc : Forall (fun e => frame_closed (blink_threshold init) e = true)
                 [[1#10]; [1#10]]) by (repeat constructor).
  assert (Ho : frame_open (blink_threshold init) [1#2] = true) by reflexivity.
  destruct (blink_after_closed_run init [[1#10]; [1#10]] [1#2] Hc Ho) as (H1 & _ & H3).
  split; [exact Hc | split; [exact Ho | split; [exact H1 | exact H3]]].
Defined.

Lemma verify_liveness_params d now eyes :
  blink_threshold (snd (verify_liveness d now eyes)) = blink_threshold d /\
  consecutive_frames (snd (verify_liveness d now eyes)) = consecutive_frames d /\
  required_blinks (snd (verify_liveness d now eyes)) = required_blinks d.
Proof.
  destruct d as [bt cf rb bc clf cst mcd]; unfold verify_liveness; simpl.
  destruct (Qltb mcd _); simpl; [auto |].
  destruct eyes as [|x xs]; simpl; [auto |].
  destruct (Qltb _ bt); simpl; destruct (Nat.leb rb _); simpl; auto.
Qed.

(** [reset] isolates attempts: after any earlier sequence of
    [verify_liveness] calls, a reset detector answers every later
    sequence of calls exactly as a newly created one. *)
Theorem reset_isolates_attempts fs1 fs2 :
  run (reset (run_state init fs1)) fs2 = run init fs2.
Proof.
  assert (H : forall d fs, blink_threshold (run_state d fs) = blink_threshold d /\
                           consecutive_frames (run_state d fs) = consecutive_frames d /\
                           required_blinks (run_state d fs) = required_blinks d).
  { intros d fs; revert d; induction fs as [|[n e] fs IH]; intros d; simpl; [auto |].
    destruct (IH (snd (verify_liveness d n e))) as (H1 & H2 & H3).
    destruct (verify_liveness_params d n e) as (J1 & J2 & J3).
    rewrite H1, H2, H3, J1, J2, J3; auto. }
  destruct (H init fs1) as (H1 & H2 & H3).
  unfold reset at 1; rewrite H1, H2, H3; reflexivity.
Qed.

(** The timeout is final: in an attempt, once a call at time [ti]
    returned NOT_LIVE, every call at a time [tj >= ti] returns NOT_LIVE. *)
Theorem timeout_is_final t0 e0 rest i j ti ei tj ej ri rj :
  nth_error ((t0, e0) :: rest) i = Some (ti, ei) ->
  nth_error ((t0, e0) :: rest) j = Some (tj, ej) ->
  ti <= tj ->
  nth_error (run init ((t0, e0) :: rest)) i = Some ri ->
  nth_error (run init ((t0, e0) :: rest)) j = Some rj ->
  is_live ri = Some false -> is_live rj = Some false.
Proof.
  intros Hi Hj Hle Hri Hrj Hf.
  rewrite (run_init_outcome _ _ _ _ _ _ _ Hi Hri) in Hf.
  rewrite (run_init_outcome _ _ _ _ _ _ _ Hj Hrj).
  unfold live_outcome, Qltb in *.
  destruct (Qle_bool (ti - t0) 1) eqn:Ei; simpl in Hf.
  - destruct ei; discriminate.
  - destruct (Qle_bool (tj - t0) 1) eqn:Ej; [| reflexivity]; exfalso.
    apply Qle_bool_iff in Ej; apply not_true_iff_false in Ei; apply Ei, Qle_bool_iff.
    Lqa.lra.
Qed.

Lemma timeout_is_final_witness :
  nth_error [(0, [1#2]); (2, [1#2]); (3, [1#2])] 1 = Some (2, [1#2]) /\
  nth_error [(0, [1#2]); (2, [1#2]); (3, [1#2])] 2 = Some (3, [1#2]) /\
  2 <= 3 /\
  nth_error (run init [(0, [1#2]); (2, [1#2]); (3, [1#2])]) 1 =
    Some (mkVerifyResult (Some false) 0 (2 - 0)) /\
  nth_error (run init [(0, [1#2]); (2, [1#2]); (3, [1#2])]) 2 =
    Some (mkVerifyResult (Some false) 0 (3 - 0)) /\
  is_live (mkVerifyResult (Some false) 0 (3 - 0)) = Some false.
Proof.
  split; [reflexivity | split; [reflexivity | split; [discriminate |]]].
  split; [reflexivity | split; [reflexivity |]].
  apply (timeout_is_final 0 [1#2] [(2, [1#2]); (3, [1#2])] 1 2 2 [1#2] 3 [1#2]
           (mkVerifyResult (Some false) 0 (2 - 0)));
    solve [reflexivity | discriminate].
Defined.

End LivenessExtra.

Module MatcherExtra.
Import Matcher MatcherFacts.
Open Scope R_scope.


Lemma sq_sum_nonneg (l : list (R * R)) :
  0 <= fold_right Rplus 0 (map (fun '(a, b) => (a - b) * (a - b)) l).
Proof.
  induction l as [|[a b] l IH]; simpl; [lra |].
  pose proof (Rle_0_sqr (a - b)); unfold Rsqr in *; lra.
Qed.

(** [match_face] on a present query and a consistent, non-empty
    registry: the candidate at minimum distance does not depend on the
    threshold, which only decides acceptance. *)
Lemma match_face_eq q e es names :
  length names = length (e :: es) ->
  exists j m,
    nth_error (map (calculate_distance q) (e :: es)) j = Some m /\
    (forall y, In y (map (calculate_distance q) (e :: es)) -> m <= y) /\
    forall thr, match_face thr (Some q) (e :: es) names =
      if Rle_dec m thr then
        mkMatchResult true (nth_error names j) (Rmax 0 (1 - m / thr)) (Fin m) (Some j)
      else mkMatchResult false None 0 (Fin m) None.
Proof.
  intros Hlen.
  pose proof (argmin_spec (calculate_distance q e) (map (calculate_distance q) es)) as Ha.
  change (calculate_distance q e :: map (calculate_distance q) es)
    with (map (calculate_distance q) (e :: es)) in Ha.
  destruct (argmin (map (calculate_distance q) (e :: es))) as [j m] eqn:Eam.
  destruct Ha as [Hn Hmin].
  exists j, m; split; [exact Hn | split; [exact Hmin |]].
  intros thr; unfold match_face; cbv beta iota.
  rewrite Hlen, Nat.eqb_refl; cbv beta iota; rewrite Eam; reflexivity.
Qed.

Lemma match_face_matched_inv thr q encs names :
  matched (match_face thr q encs names) = true ->
  exists q' e es, q = Some q' /\ encs = e :: es /\ length names = length (e :: es).
Proof.
  destruct q as [q'|]; [| discriminate].
  destruct encs as [|e es]; [discriminate |].
  destruct (Nat.eq_dec (length names) (length (e :: es))) as [Heq|Hne].
  - intros _; exists q', e, es; auto.
  - unfold match_face; apply Nat.eqb_neq in Hne; rewrite Hne; discriminate.
Qed.

Lemma min_in_map q encs m :
  (forall y, In y (map (calculate_distance q) encs) -> m <= y) ->
  forall k, In k encs -> m <= calculate_distance q k.
Proof. intros H k Hk; apply H, in_map, Hk. Qed.

Lemma within_threshold_matched thr q e es names :
  length names = length (e :: es) ->
  (exists k, In k (e :: es) /\ calculate_distance q k <= thr) ->
  matched (match_face thr (Some q) (e :: es) names) = true.
Proof.
  intros Hlen (k & Hin & Hk).
  destruct (match_face_eq q e es names Hlen) as (j & m & Hn & Hmin & Hmf).
  rewrite Hmf; pose proof (min_in_map q _ m Hmin k Hin).
  destruct (Rle_dec m thr); [reflexivity | lra].
Qed.

Lemma calculate_distance_self e : calculate_distance e e = 0.
Proof.
  unfold calculate_distance; transitivity (sqrt 0); [f_equal | apply sqrt_0].
  induction e as [|x e IH]; simpl; [reflexivity | rewrite IH; ring].
Qed.

(** [calculate_distance] is a distance on encodings of one size: it is
    nonnegative and symmetric, and it is 0 exactly on equal encodings. *)
Theorem calculate_distance_metric e1 e2 :
  0 <= calculate_distance e1 e2 /\
  calculate_distance e1 e2 = calculate_distance e2 e1 /\
  (length e1 = length e2 -> (calculate_distance e1 e2 = 0 <-> e1 = e2)).
Proof.
  split; [apply calculate_distance_nonneg |]; split.
  - unfold calculate_distance; f_equal; revert e2.
    induction e1 as [|x e1 IH]; intros [|y e2]; simpl; try reflexivity.
    rewrite IH; ring.
  - intros Hlen; split; [| intros ->; apply calculate_distance_self].
    unfold calculate_distance; intros H0.
    apply sqrt_eq_0 in H0; [| apply sq_sum_nonneg].
    revert e2 Hlen H0; induction e1 as [|x e1 IH]; intros [|y e2] Hlen H0;
      simpl in *; try (reflexivity || discriminate).
    pose proof (sq_sum_nonneg (combine e1 e2)) as Hp.
    pose proof (Rle_0_sqr (x - y)) as Hs; unfold Rsqr in Hs.
    assert (Hxy : (x - y) * (x - y) = 0) by lra.
    apply Rmult_integral in Hxy; destruct Hxy as [Hxy|Hxy];
      (replace y with x by lra); f_equal; apply IH; [lia | lra | lia | lra].
Qed.

(** [match_face] on a present query and a non-empty registry whose name
    list has its length accepts exactly when some registered encoding is
    within the threshold; a rejection means every registered encoding is
    farther than the threshold. *)
Theorem matched_iff_some_within_threshold thr q e es names :
  length names = length (e :: es) ->
  (matched (match_face thr (Some q) (e :: es) names) = true <->
   exists k, In k (e :: es) /\ calculate_distance q k <= thr).
Proof.
  intros Hlen; destruct (match_face_eq q e es names Hlen) as (j & m & Hn & Hmin & Hmf).
  rewrite Hmf; destruct (Rle_dec m thr) as [Hle|Hgt]; simpl; split.
  - intros _; apply nth_error_In, in_map_iff in Hn; destruct Hn as [k [Hk Hin]].
    exists k; split; [exact Hin | lra].
  - intros _; reflexivity.
  - discriminate.
  - intros (k & Hin & Hk); exfalso.
    pose proof (min_in_map q _ m Hmin k Hin); lra.
Qed.

Lemma matched_iff_some_within_threshold_witness :
  length ["Alice"%string; "Bob"%string] = length [[0; 0]; [3; 4]] /\
  (matched (match_face 1 (Some [3; 3]) [[0; 0]; [3; 4]] ["Alice"%string; "Bob"%string]) = true <->
   exists k, In k [[0; 0]; [3; 4]] /\ calculate_distance [3; 3] k <= 1).
Proof.
  split; [reflexivity |].
  apply (matched_iff_some_within_threshold 1 [3; 3] [0; 0] [[3; 4]]); reflexivity.
Defined.

(** A registered encoding presented again is matched exactly: for a
    positive threshold and a name list of the registry's length, a query
    equal to one of the registered encodings is accepted at distance 0
    with confidence 1. *)
Theorem exact_self_match thr q encs names :
  In q encs -> length names = length encs -> 0 < thr ->
  matched (match_face thr (Some q) encs names) = true /\
  distance (match_face thr (Some q) encs names) = Fin 0 /\
  confidence (match_face thr (Some q) encs names) = 1.
Proof.
  intros Hin Hlen Ht; destruct encs as [|e es]; [destruct Hin |].
  destruct (match_face_eq q e es names Hlen) as (j & m & Hn & Hmin & Hmf).
  assert (Hm : m = 0).
  { pose proof (min_in_map q _ m Hmin q Hin) as H1.
    rewrite calculate_distance_self in H1.
    apply nth_error_In, in_map_iff in Hn; destruct Hn as [k [Hk _]].
    pose proof (calculate_distance_nonneg q k); lra. }
  subst m; rewrite Hmf; destruct (Rle_dec 0 thr) as [_|Hgt]; [| lra]; simpl.
  split; [reflexivity | split; [reflexivity |]].
  rewrite Rdiv_0_l; replace (1 - 0) with 1 by ring; apply Rmax_right; lra.
Qed.

Lemma exact_self_match_witness :
  In [3; 4] [[0; 0]; [3; 4]] /\
  length ["Alice"%string; "Bob"%string] = length [[0; 0]; [3; 4]] /\ 0 < 1 /\
  matched (match_face 1 (Some [3; 4]) [[0; 0]; [3; 4]] ["Alice"%string; "Bob"%string]) = true /\
  distance (match_face 1 (Some [3; 4]) [[0; 0]; [3; 4]] ["Alice"%string; "Bob"%string]) = Fin 0 /\
  confidence (match_face 1 (Some [3; 4]) [[0; 0]; [3; 4]] ["Alice"%string; "Bob"%string]) = 1.
Proof.
  assert (Hin : In [3; 4] [[0; 0]; [3; 4]]) by (simpl; auto).
  split; [exact Hin | split; [reflexivity | split; [lra |]]].
  apply (exact_self_match 1 [3; 4] [[0; 0]; [3; 4]] ["Alice"%string; "Bob"%string]);
    [exact Hin | reflexivity | lra].
Defined.

(** Raising the threshold ([set_threshold]) keeps every accepted match:
    same name, index and distance, and a confidence at least as high. *)
Theorem threshold_monotone t t' q encs names :
  0 < t -> t <= t' ->
  matched (match_face t q encs names) = true ->
  matched (match_face t' q encs names) = true /\
  name (match_face t' q encs names) = name (match_face t q encs names) /\
  index (match_face t' q encs names) = index (match_face t q encs names) /\
  distance (match_face t' q encs names) = distance (match_face t q encs names) /\
  confidence (match_face t q encs names) <= confidence (match_face t' q encs names).
Proof.
  intros Ht Htt' Hm.
  destruct (match_face_matched_inv _ _ _ _ Hm) as (q' & e & es & -> & -> & Hlen).
  destruct (match_face_eq q' e es names Hlen) as (j & m & Hn & Hmin & Hmf).
  rewrite !Hmf in *; destruct (Rle_dec m t) as [Hle|]; [| discriminate].
  destruct (Rle_dec m t') as [Hle'|]; [| lra]; simpl.
  repeat (split; [reflexivity |]).
  assert (Hm0 : 0 <= m).
  { apply nth_error_In, in_map_iff in Hn; destruct Hn as [k [<- _]].
    apply calculate_distance_nonneg. }
  assert (Hd : m / t' <= m / t).
  { unfold Rdiv; apply Rmult_le_compat_l; [exact Hm0 |].
    apply Rinv_le_contravar; lra. }
  unfold Rmax; destruct (Rle_dec 0 (1 - m / t)); destruct (Rle_dec 0 (1 - m / t')); lra.
Qed.

Lemma threshold_monotone_witness :
  0 < 1 /\ 1 <= 2 /\
  matched (match_face 1 (Some [0; 1]) [[0; 0]; [3; 4]] ["Alice"%string; "Bob"%string]) = true /\
  confidence (match_face 1 (Some [0; 1]) [[0; 0]; [3; 4]] ["Alice"%string; "Bob"%string]) <=
  confidence (match_face 2 (Some [0; 1]) [[0; 0]; [3; 4]] ["Alice"%string; "Bob"%string]).
Proof.
  assert (Hm : matched (match_face 1 (Some [0; 1]) [[0; 0]; [3; 4]]
                          ["Alice"%string; "Bob"%string]) = true).
  { apply (within_threshold_matched 1 [0; 1] [0; 0] [[3; 4]]); [reflexivity |].
    exists [0; 0]; split; [simpl; auto |].
    unfold calculate_distance; simpl.
    replace ((0 - 0) * (0 - 0) + ((1 - 0) * (1 - 0) + 0)) with 1 by ring.
    rewrite sqrt_1; lra. }
  split; [lra | split; [lra | split; [exact Hm |]]].
  apply (threshold_monotone 1 2 (Some [0; 1]) [[0; 0]; [3; 4]] ["Alice"%string; "Bob"%string]);
    [lra | lra | exact Hm].
Defined.

Lemma matched_consistent thr q encs names :
  matched (match_face thr q encs names) = true ->
  exists q' i n k,
    q = Some q' /\
    index (match_face thr q encs names) = Some i /\
    name (match_face thr q encs names) = Some n /\
    nth_error names i = Some n /\ nth_error encs i = Some k /\
    distance (match_face thr q encs names) = Fin (calculate_distance q' k) /\
    calculate_distance q' k <= thr.
Proof.
  intros Hm.
  destruct (match_face_matched_inv _ _ _ _ Hm) as (q' & e & es & -> & -> & Hlen).
  destruct (match_face_eq q' e es names Hlen) as (j & m & Hn & Hmin & Hmf).
  rewrite Hmf in *; destruct (Rle_dec m thr) as [Hle|]; [| discriminate]; simpl.
  rewrite nth_error_map in Hn.
  destruct (nth_error (e :: es) j) as [k|] eqn:Ek; [| discriminate]; simpl in Hn.
  injection Hn as Hk.
  assert (Hj : (j < length names)%nat).
  { rewrite Hlen; apply nth_error_Some; rewrite Ek; discriminate. }
  apply nth_error_Some in Hj; destruct (nth_error names j) as [n|] eqn:En; [| contradiction].
  exists q', j, n, k; rewrite Hk; auto 7.
Qed.

(** An accepted match is consistent: it carries an index [i] of the
    registry, the name at position [i] of the name list, and the distance
    from the query to the encoding at position [i], which is within the
    threshold. *)
Theorem match_result_consistent thr q encs names :
  matched (match_face thr q encs names) = true ->
  exists q' i n k,
    q = Some q' /\
    index (match_face thr q encs names) = Some i /\
    name (match_face thr q encs names) = Some n /\
    nth_error names i = Some n /\ nth_error encs i = Some k /\
    distance (match_face thr q encs names) = Fin (calculate_distance q' k) /\
    calculate_distance q' k <= thr.
Proof. exact (matched_consistent thr q encs names). Qed.

Lemma match_result_consistent_witness :
  matched (match_face 1 (Some [3; 4]) [[0; 0]; [3; 4]] ["Alice"%string; "Bob"%string]) = true /\
  exists q' i n k,
    Some [3; 4] = Some q' /\
    index (match_face 1 (Some [3; 4]) [[0; 0]; [3; 4]] ["Alice"%string; "Bob"%string]) = Some i /\
    name (match_face 1 (Some [3; 4]) [[0; 0]; [3; 4]] ["Alice"%string; "Bob"%string]) = Some n /\
    nth_error ["Alice"%string; "Bob"%string] i = Some n /\ nth_error [[0; 0]; [3; 4]] i = Some k /\
    distance (match_face 1 (Some [3; 4]) [[0; 0]; [3; 4]] ["Alice"%string; "Bob"%string]) =
      Fin (calculate_distance q' k) /\
    calculate_distance q' k <= 1.
Proof.
  assert (Hm : matched (match_face 1 (Some [3; 4]) [[0; 0]; [3; 4]]
                          ["Alice"%string; "Bob"%string]) = true).
  { apply (within_threshold_matched 1 [3; 4] [0; 0] [[3; 4]]); [reflexivity |].
    exists [3; 4]; split; [simpl; auto | rewrite calculate_distance_self; lra]. }
  split; [exact Hm |].
  apply (match_result_consistent 1 (Some [3; 4]) [[0; 0]; [3; 4]]); exact Hm.
Defined.







End MatcherExtra.

Module RegistryExtra.
Import Registry RegistryFacts Matcher MatcherExtra.
Open Scope R_scope.

Lemma register_face_fst name enc now st :
  fst (register_face name enc now st) = length (faces st).
Proof. reflexivity. Qed.

Lemma register_face_faces name enc now st :
  faces (snd (register_face name enc now st)) =
    faces st ++ [mkFaceMeta (length (faces st)) name now].
Proof. reflexivity. Qed.

Lemma register_face_encodings name enc now st :
  encodings (snd (register_face name enc now st)) = encodings st ++ [enc].
Proof. simpl; destruct (encodings st); reflexivity. Qed.

Lemma registered_inv st :
  registered st ->
  length (faces st) = length (encodings st) /\
  (forall i m, nth_error (faces st) i = Some m -> id m = i).
Proof.
  induction 1 as [|st name enc now Hr [Hlen Hid]]; [split; [reflexivity | intros [|i] m H; discriminate] |].
  rewrite register_face_faces, register_face_encodings, !length_app, Hlen; split; [reflexivity |].
  intros i m H; destruct (Nat.lt_ge_cases i (length (faces st))) as [Hi|Hi].
  - rewrite nth_error_app1 in H by exact Hi; exact (Hid i m H).
  - rewrite nth_error_app2 in H by exact Hi.
    destruct (i - length (faces st))%nat as [|k] eqn:Ek; simpl in H.
    + injection H as <-; simpl; lia.
    + destruct k; discriminate.
Qed.

(** A registry built by [register_face] calls keeps [faces] and the rows
    of [encodings] aligned: one row per face, [get_all_names] gives one
    name per row, and the face at position [i] has id [i]. *)
Theorem registered_aligned st :
  registered st ->
  length (faces st) = length (encodings st) /\
  length (get_all_names st) = length (encodings st) /\
  (forall i m, nth_error (faces st) i = Some m -> id m = i).
Proof.
  intros Hr; destruct (registered_inv st Hr) as [Hlen Hid].
  unfold get_all_names; rewrite length_map; auto.
Qed.

Lemma registered_aligned_witness :
  registered (snd (register_face "Bob" [3; 4] "t2"
                (snd (register_face "Alice" [0; 0] "t1" (mkFaceStorage [] []))))) /\
  length (faces (snd (register_face "Bob" [3; 4] "t2"
                (snd (register_face "Alice" [0; 0] "t1" (mkFaceStorage [] [])))))) =
  length (encodings (snd (register_face "Bob" [3; 4] "t2"
                (snd (register_face "Alice" [0; 0] "t1" (mkFaceStorage [] [])))))).
Proof.
  assert (Hr : registered (snd (register_face "Bob" [3; 4] "t2"
                (snd (register_face "Alice" [0; 0] "t1" (mkFaceStorage [] []))))))
    by (repeat constructor).
  split; [exact Hr | apply (registered_aligned _ Hr)].
Defined.

(** [get_face_by_index] after [register_face]: the returned id finds the
    new face, whose encoding is the row at that id when the registry was
    aligned; every other index, negative or out of range included, gives
    what it gave before. *)
Theorem get_face_by_index_register st name enc now :
  length (faces st) = length (encodings st) ->
  get_face_by_index (snd (register_face name enc now st))
    (Z.of_nat (fst (register_face name enc now st))) =
    Some (mkFaceMeta (length (faces st)) name now) /\
  nth_error (encodings (snd (register_face name enc now st)))
    (fst (register_face name enc now st)) = Some enc /\
  (forall k, k <> Z.of_nat (fst (register_face name enc now st)) ->
     get_face_by_index (snd (register_face name enc now st)) k = get_face_by_index st k).
Proof.
  intros Hlen; rewrite register_face_fst; unfold get_face_by_index.
  rewrite register_face_faces, register_face_encodings, length_app; simpl length.
  split; [| split].
  - replace ((0 <=? Z.of_nat (length (faces st)))%Z) with true by (symmetry; apply Z.leb_le; lia).
    replace ((Z.of_nat (length (faces st)) <? Z.of_nat (length (faces st) + 1))%Z) with true
      by (symmetry; apply Z.ltb_lt; lia).
    simpl; rewrite Znat.Nat2Z.id, nth_error_app2, Nat.sub_diag by lia; reflexivity.
  - rewrite Hlen, nth_error_app2, Nat.sub_diag by lia; reflexivity.
  - intros k Hk.
    destruct (Z.leb_spec 0 k) as [H0|H0]; simpl; [| reflexivity].
    destruct (Z.ltb_spec k (Z.of_nat (length (faces st)))) as [H1|H1].
    + replace ((k <? Z.of_nat (length (faces st) + 1))%Z) with true
        by (symmetry; apply Z.ltb_lt; lia).
      apply nth_error_app1; lia.
    + replace ((k <? Z.of_nat (length (faces st) + 1))%Z) with false
        by (symmetry; apply Z.ltb_ge; lia); reflexivity.
Qed.

Lemma get_face_by_index_register_witness :
  length (faces (mkFaceStorage [] [])) = length (encodings (mkFaceStorage [] [])) /\
  get_face_by_index (snd (register_face "Alice" [0; 0] "t1" (mkFaceStorage [] []))) 0%Z =
    Some (mkFaceMeta 0 "Alice" "t1").
Proof.
  split; [reflexivity |].
  apply (get_face_by_index_register (mkFaceStorage [] []) "Alice" [0; 0] "t1"); reflexivity.
Defined.

(** The recognition flow of the app: when [match_face] on a registry
    built by [register_face] (its encodings and [get_all_names]) accepts,
    the returned index is a valid argument of [get_face_by_index], which
    gives the face of the returned name, with that index as id. *)
Theorem match_index_finds_face thr q st :
  registered st ->
  matched (match_face thr q (encodings st) (get_all_names st)) = true ->
  exists i meta,
    index (match_face thr q (encodings st) (get_all_names st)) = Some i /\
    get_face_by_index st (Z.of_nat i) = Some meta /\
    name (match_face thr q (encodings st) (get_all_names st)) = Some (face_name meta) /\
    id meta = i.
Proof.
  intros Hr Hm; destruct (registered_inv st Hr) as [Hlen Hid].
  destruct (matched_consistent _ _ _ _ Hm) as (q' & i & n & k & _ & Hi & Hn & Hnn & Hk & _).
  unfold get_all_names in Hnn; rewrite nth_error_map in Hnn.
  destruct (nth_error (faces st) i) as [meta|] eqn:Ef; [| discriminate].
  injection Hnn as Hnn.
  exists i, meta; split; [exact Hi | split; [| split; [rewrite Hn, Hnn; reflexivity | exact (Hid i meta Ef)]]].
  unfold get_face_by_index.
  assert (Hlt : (i < length (faces st))%nat) by (apply nth_error_Some; rewrite Ef; discriminate).
  replace ((0 <=? Z.of_nat i)%Z) with true by (symmetry; apply Z.leb_le; lia).
  replace ((Z.of_nat i <? Z.of_nat (length (faces st)))%Z) with true by (symmetry; apply Z.ltb_lt; lia).
  rewrite Znat.Nat2Z.id; exact Ef.
Qed.

Lemma match_index_finds_face_witness :
  registered (snd (register_face "Alice" [0; 0] "t1" (mkFaceStorage [] []))) /\
  matched (match_face 1 (Some [0; 0])
    (encodings (snd (register_face "Alice" [0; 0] "t1" (mkFaceStorage [] []))))
    (get_all_names (snd (register_face "Alice" [0; 0] "t1" (mkFaceStorage [] []))))) = true /\
  exists i meta,
    index (match_face 1 (Some [0; 0])
      (encodings (snd (register_face "Alice" [0; 0] "t1" (mkFaceStorage [] []))))
      (get_all_names (snd (register_face "Alice" [0; 0] "t1" (mkFaceStorage [] []))))) = Some i /\
    get_face_by_index (snd (register_face "Alice" [0; 0] "t1" (mkFaceStorage [] []))) (Z.of_nat i) =
      Some meta /\
    name (match_face 1 (Some [0; 0])
      (encodings (snd (register_face "Alice" [0; 0] "t1" (mkFaceStorage [] []))))
      (get_all_names (snd (register_face "Alice" [0; 0] "t1" (mkFaceStorage [] []))))) =
      Some (face_name meta) /\
    id meta = i.
Proof.
  assert (Hr : registered (snd (register_face "Alice" [0; 0] "t1" (mkFaceStorage [] []))))
    by (repeat constructor).
  assert (Hm : matched (match_face 1 (Some [0; 0])
    (encodings (snd (register_face "Alice" [0; 0] "t1" (mkFaceStorage [] []))))
    (get_all_names (snd (register_face "Alice" [0; 0] "t1" (mkFaceStorage [] []))))) = true).
  { change (matched (match_face 1 (Some [0; 0]) [[0; 0]] ["Alice"%string]) = true).
    apply within_threshold_matched; [reflexivity |].
    exists [0; 0]; split; [simpl; auto | rewrite calculate_distance_self; lra]. }
  split; [exact Hr | split; [exact Hm |]].
  apply (match_index_finds_face 1 (Some [0; 0]) _ Hr Hm).
Defined.



End RegistryExtra.

Module LedgerExtra.
Import Ledger LedgerFacts.
Open Scope Q_scope.

Lemma punch_in_snd n fid now today clock L :
  snd (punch_in n fid now today clock L) = L \/
  (get_status_recent now n L = None /\
   punch_in n fid now today clock L =
     (Accepted (mkEntry n fid punch_in_kind now today clock None),
      L ++ [mkEntry n fid punch_in_kind now today clock None])).
Proof.
  unfold punch_in; destruct (get_status_recent now n L) as [[|]|]; auto.
Qed.

Lemma punch_out_snd n fid now today clock L :
  snd (punch_out n fid now today clock L) = L \/
  ((exists k, get_status_today today n L = Some k) /\
   punch_out n fid now today clock L =
     (Accepted (mkEntry n fid punch_out_kind now today clock
                  (match get_last_punch_in_today today n L with
                   | Some p => Some (now - timestamp p)
                   | None => None
                   end)),
      L ++ [mkEntry n fid punch_out_kind now today clock
              (match get_last_punch_in_today today n L with
               | Some p => Some (now - timestamp p)
               | None => None
               end)])).
Proof.
  unfold punch_out; destruct (get_status_today today n L) as [k|] eqn:Hs; [| auto].
  destruct (match k with punch_in_kind => false | punch_out_kind => _ end); [auto |].
  right; split; [exists k; reflexivity | reflexivity].
Qed.

Lemma snoc_split {A} L1 (e : A) L2 L x :
  L1 ++ e :: L2 = L ++ [x] ->
  (L1 = L /\ e = x /\ L2 = []) \/ (exists L2', L2 = L2' ++ [x] /\ L1 ++ e :: L2' = L).
Proof.
  destruct L2 as [|y L2'] using rev_ind; intros H.
  - apply app_inj_tail in H; destruct H as [-> ->]; left; auto.
  - right; exists L2'.
    replace (L1 ++ e :: L2' ++ [y]) with ((L1 ++ e :: L2') ++ [y]) in H
      by (rewrite <- app_assoc; reflexivity).
    apply app_inj_tail in H; destruct H as [-> ->]; auto.
Qed.

Lemma recent_none_far now n L :
  get_status_recent now n L = None ->
  forall e', In e' L -> name e' = n -> 10 < now - timestamp e'.
Proof.
  unfold get_status_recent; intros H e' He' Hn.
  destruct (find _ (rev L)) eqn:E; [discriminate |].
  apply in_rev in He'; pose proof (find_none _ _ E e' He') as Hf; simpl in Hf.
  rewrite Hn, String.eqb_refl in Hf; simpl in Hf.
  apply Qnot_le_lt; intros Hle; apply Qle_bool_iff in Hle; congruence.
Qed.

(** What a ledger built by [punch_in] and [punch_out] never holds: an
    ENTRY of a person 10 s or less after an earlier event of that person
    in the log. *)
Theorem entry_spacing L L1 e L2 :
  reachable L -> L = L1 ++ e :: L2 -> type e = punch_in_kind ->
  forall e', In e' L1 -> name e' = name e -> 10 < timestamp e - timestamp e'.
Proof.
  intros Hr; revert L1 e L2; induction Hr as [|L n fid now today clock Hr IH|L n fid now today clock Hr IH];
    intros L1 e L2 HL Ht.
  - destruct L1; discriminate.
  - destruct (punch_in_snd n fid now today clock L) as [Hs|[Hrec Hp]];
      [rewrite Hs in HL; exact (IH _ _ _ HL Ht) |].
    rewrite Hp in HL; simpl in HL; symmetry in HL; apply snoc_split in HL.
    destruct HL as [(-> & -> & _)|(L2' & _ & HL)]; [| exact (IH _ _ _ (eq_sym HL) Ht)].
    intros e' He' Hn; exact (recent_none_far _ _ _ Hrec e' He' Hn).
  - destruct (punch_out_snd n fid now today clock L) as [Hs|[_ Hp]];
      [rewrite Hs in HL; exact (IH _ _ _ HL Ht) |].
    rewrite Hp in HL; simpl in HL; symmetry in HL; apply snoc_split in HL.
    destruct HL as [(_ & -> & _)|(L2' & _ & HL)]; [discriminate | exact (IH _ _ _ (eq_sym HL) Ht)].
Qed.

Lemma entry_spacing_witness :
  reachable (snd (punch_in "Alice" 0 200 1 "09:03:20"
               (snd (punch_out "Alice" 0 100 1 "09:01:40"
                 (snd (punch_in "Alice" 0 0 1 "09:00:00" [])))))) /\
  snd (punch_in "Alice" 0 200 1 "09:03:20"
        (snd (punch_out "Alice" 0 100 1 "09:01:40"
          (snd (punch_in "Alice" 0 0 1 "09:00:00" []))))) =
    [mkEntry "Alice" 0 punch_in_kind 0 1 "09:00:00" None;
     mkEntry "Alice" 0 punch_out_kind 100 1 "09:01:40" (Some (100 - 0))] ++
    mkEntry "Alice" 0 punch_in_kind 200 1 "09:03:20" None :: [] /\
  10 < timestamp (mkEntry "Alice" 0 punch_in_kind 200 1 "09:03:20" None) -
       timestamp (mkEntry "Alice" 0 punch_out_kind 100 1 "09:01:40" (Some (100 - 0))).
Proof.
  assert (Hr : reachable (snd (punch_in "Alice" 0 200 1 "09:03:20"
               (snd (punch_out "Alice" 0 100 1 "09:01:40"
                 (snd (punch_in "Alice" 0 0 1 "09:00:00" []))))))) by (repeat constructor).
  assert (HL : snd (punch_in "Alice" 0 200 1 "09:03:20"
        (snd (punch_out "Alice" 0 100 1 "09:01:40"
          (snd (punch_in "Alice" 0 0 1 "09:00:00" []))))) =
    [mkEntry "Alice" 0 punch_in_kind 0 1 "09:00:00" None;
     mkEntry "Alice" 0 punch_out_kind 100 1 "09:01:40" (Some (100 - 0))] ++
    mkEntry "Alice" 0 punch_in_kind 200 1 "09:03:20" None :: []) by reflexivity.
  split; [exact Hr | split; [exact HL |]].
  apply (entry_spacing _ _ _ _ Hr HL eq_refl); [simpl; auto | reflexivity].
Defined.

(** In a ledger built by [punch_in] and [punch_out], every EXIT follows
    an ENTRY of the same person on the same day, and carries as duration
    its time minus the time of the last such ENTRY before it. *)
Theorem exit_follows_entry L L1 e L2 :
  reachable L -> L = L1 ++ e :: L2 -> type e = punch_out_kind ->
  exists p, get_last_punch_in_today (date e) (name e) L1 = Some p /\
    In p L1 /\ name p = name e /\ date p = date e /\ type p = punch_in_kind /\
    duration e = Some (timestamp e - timestamp p).
Proof.
  intros Hr; revert L1 e L2; induction Hr as [|L n fid now today clock Hr IH|L n fid now today clock Hr IH];
    intros L1 e L2 HL Ht.
  - destruct L1; discriminate.
  - destruct (punch_in_snd n fid now today clock L) as [Hs|[_ Hp]];
      [rewrite Hs in HL; exact (IH _ _ _ HL Ht) |].
    rewrite Hp in HL; simpl in HL; symmetry in HL; apply snoc_split in HL.
    destruct HL as [(_ & -> & _)|(L2' & _ & HL)]; [discriminate | exact (IH _ _ _ (eq_sym HL) Ht)].
  - destruct (punch_out_snd n fid now today clock L) as [Hs|[[k Hk] Hp]];
      [rewrite Hs in HL; exact (IH _ _ _ HL Ht) |].
    rewrite Hp in HL; simpl in HL; symmetry in HL; apply snoc_split in HL.
    destruct HL as [(-> & -> & _)|(L2' & _ & HL)]; [| exact (IH _ _ _ (eq_sym HL) Ht)].
    destruct (wf_last_punch_in today n L k (reachable_wf L Hr) Hk) as [p Hp'].
    exists p; simpl; rewrite Hp'; split; [reflexivity |].
    unfold get_last_punch_in_today in Hp'; apply find_some in Hp'.
    destruct Hp' as [Hin Hf]; apply in_rev in Hin.
    apply andb_prop in Hf; destruct Hf as [Hf Hk']; apply andb_prop in Hf; destruct Hf as [Hn Hd].
    apply String.eqb_eq in Hn; apply Z.eqb_eq in Hd.
    split; [exact Hin | split; [exact Hn | split; [exact Hd | split; [| reflexivity]]]].
    destruct (type p); [reflexivity | discriminate].
Qed.

Lemma exit_follows_entry_witness :
  reachable (snd (punch_out "Alice" 0 100 1 "09:01:40"
                 (snd (punch_in "Alice" 0 0 1 "09:00:00" [])))) /\
  snd (punch_out "Alice" 0 100 1 "09:01:40" (snd (punch_in "Alice" 0 0 1 "09:00:00" []))) =
    [mkEntry "Alice" 0 punch_in_kind 0 1 "09:00:00" None] ++
    mkEntry "Alice" 0 punch_out_kind 100 1 "09:01:40" (Some (100 - 0)) :: [] /\
  exists p, get_last_punch_in_today 1 "Alice" [mkEntry "Alice" 0 punch_in_kind 0 1 "09:00:00" None]
              = Some p /\
    duration (mkEntry "Alice" 0 punch_out_kind 100 1 "09:01:40" (Some (100 - 0))) =
      Some (100 - timestamp p).
Proof.
  assert (Hr : reachable (snd (punch_out "Alice" 0 100 1 "09:01:40"
                 (snd (punch_in "Alice" 0 0 1 "09:00:00" []))))) by (repeat constructor).
  assert (HL : snd (punch_out "Alice" 0 100 1 "09:01:40" (snd (punch_in "Alice" 0 0 1 "09:00:00" []))) =
    [mkEntry "Alice" 0 punch_in_kind 0 1 "09:00:00" None] ++
    mkEntry "Alice" 0 punch_out_kind 100 1 "09:01:40" (Some (100 - 0)) :: []) by reflexivity.
  split; [exact Hr | split; [exact HL |]].
  destruct (exit_follows_entry _ _ _ _ Hr HL eq_refl) as (p & H1 & _ & _ & _ & _ & H6).
  exists p; split; [exact H1 | exact H6].
Defined.

Lemma punch_out_accepted n fid now today clock L e L' :
  punch_out n fid now today clock L = (Accepted e, L') ->
  exists d, e = mkEntry n fid punch_out_kind now today clock d /\ L' = L ++ [e].
Proof.
  destruct (punch_out_snd n fid now today clock L) as [Hs|[_ Hp]].
  - unfold punch_out in *; destruct (get_status_today today n L) as [k|];
      [| intros H; discriminate H].
    destruct (match k with punch_in_kind => false | punch_out_kind => _ end);
      intros H; [discriminate H |].
    injection H as <- <-; eexists; split; reflexivity.
  - rewrite Hp; intros H; injection H as <- <-; eexists; split; reflexivity.
Qed.

Lemma get_status_today_snoc today n L e :
  get_status_today today n (L ++ [e]) =
    if String.eqb (name e) n && Z.eqb (date e) today then Some (type e)
    else get_status_today today n L.
Proof.
  unfold get_status_today; rewrite rev_app_distr; simpl.
  destruct (String.eqb (name e) n && Z.eqb (date e) today); reflexivity.
Qed.

Lemma get_status_recent_snoc now n L e :
  get_status_recent now n (L ++ [e]) =
    if String.eqb (name e) n && Qle_bool (now - timestamp e) 10 then Some (type e)
    else get_status_recent now n L.
Proof.
  unfold get_status_recent; rewrite rev_app_distr; simpl.
  destruct (String.eqb (name e) n && Qle_bool (now - timestamp e) 10); reflexivity.
Qed.

(** [punch_in] and [punch_out] only ever append: a rejection leaves the
    log as it was and gives one of the reasons of its own method; an
    acceptance appends exactly the returned entry, which records the
    caller's name, face id, time and day and the method's kind. *)
Theorem punch_append_only n fid now today clock L :
  (forall r L', punch_in n fid now today clock L = (Rejected r, L') ->
     L' = L /\ (r = duplicate \/ r = already_completed)) /\
  (forall e L', punch_in n fid now today clock L = (Accepted e, L') ->
     L' = L ++ [e] /\ name e = n /\ face_id e = fid /\ type e = punch_in_kind /\
     timestamp e = now /\ date e = today) /\
  (forall r L', punch_out n fid now today clock L = (Rejected r, L') ->
     L' = L /\ (r = duplicate \/ r = not_punched_in)) /\
  (forall e L', punch_out n fid now today clock L = (Accepted e, L') ->
     L' = L ++ [e] /\ name e = n /\ face_id e = fid /\ type e = punch_out_kind /\
     timestamp e = now /\ date e = today).
Proof.
  split; [| split; [| split]].
  - intros r L'; unfold punch_in; destruct (get_status_recent now n L) as [[|]|];
      intros H; inversion H; subst; auto.
  - intros e L' H; destruct (punch_in_accepted _ _ _ _ _ _ _ _ H) as (_ & -> & ->).
    repeat split.
  - intros r L'; unfold punch_out; destruct (get_status_today today n L) as [k|];
      [| intros H; inversion H; subst; auto].
    destruct (match k with punch_in_kind => false | punch_out_kind => _ end);
      intros H; inversion H; subst; auto.
  - intros e L' H; destruct (punch_out_accepted _ _ _ _ _ _ _ _ H) as (d & -> & ->).
    repeat split.
Qed.

(** An ENTRY accepted at time [t] on a day lets the same person punch
    out later that day at any time [t']: the EXIT is accepted and its
    duration is [t' - t]. *)
Theorem exit_after_entry n fid t today clock L e L' fid' t' clock' :
  punch_in n fid t today clock L = (Accepted e, L') ->
  punch_out n fid' t' today clock' L' =
    (Accepted (mkEntry n fid' punch_out_kind t' today clock' (Some (t' - t))),
     L' ++ [mkEntry n fid' punch_out_kind t' today clock' (Some (t' - t))]).
Proof.
  intros H; destruct (punch_in_accepted _ _ _ _ _ _ _ _ H) as (_ & -> & ->).
  unfold punch_out; rewrite get_status_today_snoc; simpl.
  rewrite String.eqb_refl, Z.eqb_refl; simpl.
  unfold get_last_punch_in_today; rewrite rev_app_distr; simpl.
  rewrite String.eqb_refl, Z.eqb_refl; reflexivity.
Qed.

Lemma exit_after_entry_witness :
  punch_in "Alice" 0 0 1 "09:00:00" [] =
    (Accepted (mkEntry "Alice" 0 punch_in_kind 0 1 "09:00:00" None),
     [mkEntry "Alice" 0 punch_in_kind 0 1 "09:00:00" None]) /\
  punch_out "Alice" 0 3600 1 "10:00:00" [mkEntry "Alice" 0 punch_in_kind 0 1 "09:00:00" None] =
    (Accepted (mkEntry "Alice" 0 punch_out_kind 3600 1 "10:00:00" (Some (3600 - 0))),
     [mkEntry "Alice" 0 punch_in_kind 0 1 "09:00:00" None] ++
       [mkEntry "Alice" 0 punch_out_kind 3600 1 "10:00:00" (Some (3600 - 0))]).
Proof.
  assert (H : punch_in "Alice" 0 0 1 "09:00:00" [] =
    (Accepted (mkEntry "Alice" 0 punch_in_kind 0 1 "09:00:00" None),
     [mkEntry "Alice" 0 punch_in_kind 0 1 "09:00:00" None])) by reflexivity.
  split; [exact H | exact (exit_after_entry _ _ _ _ _ _ _ _ 0 3600 "10:00:00" H)].
Defined.

(** A second EXIT of a person on the day of an accepted EXIT, 10 s or
    less after it, is rejected as a duplicate. *)
Theorem exit_duplicate_within_10s n fid t today clock L e L' fid' t' clock' :
  punch_out n fid t today clock L = (Accepted e, L') -> t' - t <= 10 ->
  punch_out n fid' t' today clock' L' = (Rejected duplicate, L').
Proof.
  intros H Ht; destruct (punch_out_accepted _ _ _ _ _ _ _ _ H) as (d & -> & ->).
  unfold punch_out; rewrite get_status_today_snoc, get_status_recent_snoc; simpl.
  rewrite String.eqb_refl, Z.eqb_refl; simpl.
  apply Qle_bool_iff in Ht; rewrite Ht; reflexivity.
Qed.

Lemma exit_duplicate_within_10s_witness :
  punch_out "Alice" 0 100 1 "09:01:40" [mkEntry "Alice" 0 punch_in_kind 0 1 "09:00:00" None] =
    (Accepted (mkEntry "Alice" 0 punch_out_kind 100 1 "09:01:40" (Some (100 - 0))),
     [mkEntry "Alice" 0 punch_in_kind 0 1 "09:00:00" None;
      mkEntry "Alice" 0 punch_out_kind 100 1 "09:01:40" (Some (100 - 0))]) /\
  105 - 100 <= 10 /\
  punch_out "Alice" 0 105 1 "09:01:45"
    [mkEntry "Alice" 0 punch_in_kind 0 1 "09:00:00" None;
     mkEntry "Alice" 0 punch_out_kind 100 1 "09:01:40" (Some (100 - 0))] =
  (Rejected duplicate,
    [mkEntry "Alice" 0 punch_in_kind 0 1 "09:00:00" None;
     mkEntry "Alice" 0 punch_out_kind 100 1 "09:01:40" (Some (100 - 0))]).
Proof.
  assert (H : punch_out "Alice" 0 100 1 "09:01:40" [mkEntry "Alice" 0 punch_in_kind 0 1 "09:00:00" None] =
    (Accepted (mkEntry "Alice" 0 punch_out_kind 100 1 "09:01:40" (Some (100 - 0))),
     [mkEntry "Alice" 0 punch_in_kind 0 1 "09:00:00" None;
      mkEntry "Alice" 0 punch_out_kind 100 1 "09:01:40" (Some (100 - 0))])) by reflexivity.
  assert (Ht : 105 - 100 <= 10) by (vm_compute; discriminate).
  split; [exact H | split; [exact Ht | exact (exit_duplicate_within_10s _ _ _ _ _ _ _ _ 0 105 "09:01:45" H Ht)]].
Defined.

(** [get_status] ([get_status_today]) after an accepted punch: the
    person's status that day is the kind of the punch, and the status of
    every other person, or of any other day, is unchanged; so is the
    recent status of every other person. *)
Theorem status_after_punch n fid now today clock L :
  (forall e L', punch_in n fid now today clock L = (Accepted e, L') ->
     get_status_today today n L' = Some punch_in_kind) /\
  (forall e L', punch_out n fid now today clock L = (Accepted e, L') ->
     get_status_today today n L' = Some punch_out_kind) /\
  (forall e L', (punch_in n fid now today clock L = (Accepted e, L') \/
                 punch_out n fid now today clock L = (Accepted e, L')) ->
     (forall m d, m <> n \/ d <> today -> get_status_today d m L' = get_status_today d m L) /\
     (forall m t, m <> n -> get_status_recent t m L' = get_status_recent t m L)).
Proof.
  split; [| split].
  - intros e L' H; destruct (punch_in_accepted _ _ _ _ _ _ _ _ H) as (_ & -> & ->).
    rewrite get_status_today_snoc; simpl; rewrite String.eqb_refl, Z.eqb_refl; reflexivity.
  - intros e L' H; destruct (punch_out_accepted _ _ _ _ _ _ _ _ H) as (d & -> & ->).
    rewrite get_status_today_snoc; simpl; rewrite String.eqb_refl, Z.eqb_refl; reflexivity.
  - intros e L' H.
    assert (He : L' = L ++ [e] /\ name e = n /\ date e = today).
    { destruct H as [H|H].
      - destruct (punch_in_accepted _ _ _ _ _ _ _ _ H) as (_ & -> & ->); auto.
      - destruct (punch_out_accepted _ _ _ _ _ _ _ _ H) as (d & -> & ->); auto. }
    destruct He as (-> & Hn & Hd); split.
    + intros m d Hmd; rewrite get_status_today_snoc.
      destruct Hmd as [Hm|Hm].
      * replace (String.eqb (name e) m) with false
          by (symmetry; apply String.eqb_neq; congruence); reflexivity.
      * replace (Z.eqb (date e) d) with false
          by (symmetry; apply Z.eqb_neq; congruence).
        rewrite andb_false_r; reflexivity.
    + intros m t Hm; rewrite get_status_recent_snoc.
      replace (String.eqb (name e) m) with false
        by (symmetry; apply String.eqb_neq; congruence); reflexivity.
Qed.

(** [display_summary] prints its empty-day message exactly when no
    event of the log is dated today: [get_today_summary] is empty iff no
    entry has today's date. *)
Theorem summary_empty_iff today L :
  get_today_summary today L = [] <-> (forall e, In e L -> date e <> today).
Proof.
  split.
  - intros H e He Hd.
    destruct (group_loop_inv (get_today_logs today L)) as (_ & Hnm & _).
    unfold get_today_summary in H; apply map_eq_nil in H.
    assert (Hin : In (name e) (map row_name (fold_left group_step (get_today_logs today L) [])))
      by (apply Hnm; exists e; split; [apply filter_In; split; [exact He | apply Z.eqb_eq, Hd] | reflexivity]).
    rewrite H in Hin; destruct Hin.
  - intros H; unfold get_today_summary.
    replace (get_today_logs today L) with (@nil Entry); [reflexivity |].
    unfold get_today_logs; induction L as [|x L IH]; simpl; [reflexivity |].
    replace (Z.eqb (date x) today) with false
      by (symmetry; apply Z.eqb_neq, H; left; reflexivity).
    apply IH; intros y Hy; apply H; right; exact Hy.
Qed.

End LedgerExtra.
